(** * XResNet (fastai/vision/models/xresnet.py): a shallow embedding

    Modules are modelled as a syntax tree ([Module]) whose constructors mirror
    the PyTorch classes the file instantiates.  Parameters carry the
    distribution they were initialised with and, for random draws, the state
    of the global random generator at the draw.  Construction and
    initialisation run in a small state-and-exception monad over that
    generator state.  [forward] is given once, generically over a tensor
    interface ([TensorOps]); two instances interpret it on shapes and on
    channel counts. *)

From Stdlib Require Import String ZArith List Bool QArith Lia.
Import ListNotations.
Open Scope Z_scope.

(** ** Parameters and the random generator *)

(** State of the global random generator; each draw advances it by one. *)
Definition Rng := nat.

(** Distributions used by the framework's initialisers. *)
Inductive Dist :=
| DefaultUniform            (* reset_parameters of Conv2d / Linear *)
| KaimingNormal             (* nn.init.kaiming_normal_ *)
| Normal (mean std : Q).    (* tensor.normal_(mean, std) *)

(** A parameter tensor: drawn from a distribution (the sample is identified by
    the generator state it was drawn at) or filled with a constant. *)
Inductive Param :=
| Drawn (d : Dist) (sample : Rng)
| Const (c : Z).

(** Python exceptions the construction can raise. *)
Inductive Exn :=
| IndexError | KeyError | AttributeError | TypeError | RuntimeError | LoadError.

(** ** Modules *)

Local Set Warnings "-register-all".

Inductive Module :=
| Conv2d (ni nf ks stride pad : Z) (weight : Param) (bias : option Param)
| ReLU
| BatchNorm2d (n : Z) (weight bias : Param)
| BatchNorm1d (n : Z) (weight bias : Param)
| MaxPool2d (ks stride pad : Z)
| AvgPool2d (ks stride : Z)
| AdaptiveAvgPool2d (out : Z)
| Linear (fan_in fan_out : Z) (weight bias : Param)
| Sequential (ms : list Module)
| BasicBlockM (conv1 conv2 : Module) (downsample : option Module) (stride : Z)
| BottleneckM (conv1 conv2 conv3 : Module) (downsample : option Module) (stride : Z)
| XResNetM (conv1 conv2 conv3 maxpool layer1 layer2 layer3 layer4 avgpool fc : Module).

(** Induction principle with hypotheses for the modules inside lists and
    options. *)
Definition OptP (P : Module -> Prop) (o : option Module) : Prop :=
  match o with None => True | Some m => P m end.

Section ModuleInd.
Variable P : Module -> Prop.
Hypothesis HConv : forall ni nf ks s p w b, P (Conv2d ni nf ks s p w b).
Hypothesis HReLU : P ReLU.
Hypothesis HBN2 : forall n w b, P (BatchNorm2d n w b).
Hypothesis HBN1 : forall n w b, P (BatchNorm1d n w b).
Hypothesis HMax : forall k s p, P (MaxPool2d k s p).
Hypothesis HAvg : forall k s, P (AvgPool2d k s).
Hypothesis HAda : forall o, P (AdaptiveAvgPool2d o).
Hypothesis HLin : forall i o w b, P (Linear i o w b).
Hypothesis HSeq : forall ms, Forall P ms -> P (Sequential ms).
Hypothesis HBasic : forall c1 c2 ds s,
  P c1 -> P c2 -> OptP P ds -> P (BasicBlockM c1 c2 ds s).
Hypothesis HBottle : forall c1 c2 c3 ds s,
  P c1 -> P c2 -> P c3 -> OptP P ds -> P (BottleneckM c1 c2 c3 ds s).
Hypothesis HXRes : forall c1 c2 c3 mp l1 l2 l3 l4 ap fc,
  P c1 -> P c2 -> P c3 -> P mp -> P l1 -> P l2 -> P l3 -> P l4 -> P ap -> P fc ->
  P (XResNetM c1 c2 c3 mp l1 l2 l3 l4 ap fc).

Fixpoint Module_ind' (m : Module) : P m :=
  let optind o := match o return OptP P o with
                  | None => I | Some d => Module_ind' d end in
  match m with
  | Conv2d ni nf ks s p w b => HConv ni nf ks s p w b
  | ReLU => HReLU
  | BatchNorm2d n w b => HBN2 n w b
  | BatchNorm1d n w b => HBN1 n w b
  | MaxPool2d k s p => HMax k s p
  | AvgPool2d k s => HAvg k s
  | AdaptiveAvgPool2d o => HAda o
  | Linear i o w b => HLin i o w b
  | Sequential ms =>
      HSeq ms ((fix go (l : list Module) : Forall P l :=
                  match l with
                  | [] => Forall_nil P
                  | x :: r => Forall_cons x (Module_ind' x) (go r)
                  end) ms)
  | BasicBlockM c1 c2 ds s =>
      HBasic c1 c2 ds s (Module_ind' c1) (Module_ind' c2) (optind ds)
  | BottleneckM c1 c2 c3 ds s =>
      HBottle c1 c2 c3 ds s (Module_ind' c1) (Module_ind' c2) (Module_ind' c3) (optind ds)
  | XResNetM c1 c2 c3 mp l1 l2 l3 l4 ap fc =>
      HXRes c1 c2 c3 mp l1 l2 l3 l4 ap fc
        (Module_ind' c1) (Module_ind' c2) (Module_ind' c3) (Module_ind' mp)
        (Module_ind' l1) (Module_ind' l2) (Module_ind' l3) (Module_ind' l4)
        (Module_ind' ap) (Module_ind' fc)
  end.
End ModuleInd.

(** ** The construction monad: random-generator state and exceptions *)

Inductive Res (A : Type) :=
| Ok (a : A) (g : Rng)
| Raise (e : Exn).
Arguments Ok {A} a g.
Arguments Raise {A} e.

Definition M (A : Type) := Rng -> Res A.

Definition ret {A} (a : A) : M A := fun g => Ok a g.
Definition raise {A} (e : Exn) : M A := fun _ => Raise e.
Definition bind {A B} (c : M A) (k : A -> M B) : M B :=
  fun g => match c g with Ok a g1 => k a g1 | Raise e => Raise e end.

Notation "x <- c1 ;; c2" := (bind c1 (fun x => c2))
  (at level 61, c1 at next level, right associativity).
Notation "' p <- c1 ;; c2" := (bind c1 (fun x => match x with p => c2 end))
  (at level 61, p pattern, c1 at next level, right associativity).

(** One draw from the global generator. *)
Definition draw (d : Dist) : M Param := fun g => Ok (Drawn d g) (S g).

(** [for x in l: f(x)] collecting the results, and its option form. *)
Fixpoint mapM {A B} (f : A -> M B) (l : list A) : M (list B) :=
  match l with
  | [] => ret []
  | x :: r => y <- f x;; ys <- mapM f r;; ret (y :: ys)
  end.

Definition optM {A B} (f : A -> M B) (o : option A) : M (option B) :=
  match o with None => ret None | Some x => y <- f x;; ret (Some y) end.

(** [for _ in range(n): c] collecting the results. *)
Fixpoint repeatM {A} (n : nat) (c : M A) : M (list A) :=
  match n with
  | O => ret []
  | S n' => x <- c;; xs <- repeatM n' c;; ret (x :: xs)
  end.

(** ** Framework constructors (torch.nn)

    Allocating a parameter of negative size raises a RuntimeError; Conv2d
    and Linear draw their default weights (and bias) from the generator;
    BatchNorm starts at weight 1 and bias 0; the other layers own no
    parameters. *)

Definition nnConv2d (ni nf ks stride pad : Z) (bias : bool) : M Module :=
  if (ni <? 0) || (nf <? 0) || (ks <? 0) then raise RuntimeError else
  w <- draw DefaultUniform;;
  b <- (if bias then p <- draw DefaultUniform;; ret (Some p) else ret None);;
  ret (Conv2d ni nf ks stride pad w b).

Definition nnBatchNorm2d (n : Z) : M Module :=
  if n <? 0 then raise RuntimeError else ret (BatchNorm2d n (Const 1) (Const 0)).

Definition nnBatchNorm1d (n : Z) : M Module :=
  if n <? 0 then raise RuntimeError else ret (BatchNorm1d n (Const 1) (Const 0)).

Definition nnLinear (i o : Z) : M Module :=
  if (i <? 0) || (o <? 0) then raise RuntimeError else
  w <- draw DefaultUniform;;
  b <- draw DefaultUniform;;
  ret (Linear i o w b).

(** ** xresnet.py, lines 17-31 *)

Definition conv (ni nf : Z) (ks stride : Z) (bias : bool) : M Module :=
  nnConv2d ni nf ks stride (ks / 2) bias.

Definition conv_relu_bn_ (ni nf ks stride : Z) (rev : bool) : M (list Module) :=
  c <- conv ni nf ks stride false;;
  bn <- nnBatchNorm2d (if rev then ni else nf);;
  let layers := [c; ReLU; bn] in
  ret (if rev then List.rev layers else layers).

Definition conv_bn_relu (ni nf ks stride : Z) : M Module :=
  ls <- conv_relu_bn_ ni nf ks stride false;; ret (Sequential ls).

Definition bn_relu_conv (ni nf ks stride : Z) : M Module :=
  ls <- conv_relu_bn_ ni nf ks stride true;; ret (Sequential ls).

(** ** Residual blocks, lines 33-67 *)

Inductive BlockClass := BasicBlock | Bottleneck.

Definition expansion (b : BlockClass) : Z :=
  match b with BasicBlock => 1 | Bottleneck => 4 end.

Definition BasicBlock_init (ni nf stride : Z) (downsample : option Module) : M Module :=
  c1 <- bn_relu_conv ni nf 3 stride;;
  c2 <- bn_relu_conv nf nf 3 1;;
  ret (BasicBlockM c1 c2 downsample stride).

Definition Bottleneck_init (ni nf stride : Z) (downsample : option Module) : M Module :=
  c1 <- bn_relu_conv ni nf 1 1;;
  c2 <- bn_relu_conv nf nf 3 stride;;
  c3 <- bn_relu_conv nf (nf * expansion Bottleneck) 1 1;;
  ret (BottleneckM c1 c2 c3 downsample stride).

(** [block(ni, nf, stride, downsample)] *)
Definition block_new (b : BlockClass) : Z -> Z -> Z -> option Module -> M Module :=
  match b with BasicBlock => BasicBlock_init | Bottleneck => Bottleneck_init end.

(** ** XResNet._make_layer, lines 96-110; [ni] is [self.ni] before the call,
    the second component of the result is [self.ni] after it. *)

Definition make_layer (ni : Z) (block : BlockClass) (nf blocks stride : Z)
  : M (Module * Z) :=
  downsample <-
    (if negb (stride =? 1) || negb (ni =? nf * expansion block) then
       let pool := if stride =? 2 then [AvgPool2d 2 2] else [] in
       c <- conv ni (nf * expansion block) 1 1 false;;
       bn <- nnBatchNorm2d (nf * expansion block);;
       ret (Some (Sequential (pool ++ [c; bn])))
     else ret None);;
  b0 <- block_new block ni nf stride downsample;;
  let ni' := nf * expansion block in
  rest <- repeatM (Z.to_nat (blocks - 1)) (block_new block ni' nf 1 None);;
  ret (Sequential (b0 :: rest), ni').

(** ** init_cnn, lines 8-15 *)

Fixpoint init_cnn (m : Module) : M Module :=
  match m with
  | Conv2d ni nf ks s p _ b =>
      w <- draw KaimingNormal;;
      ret (Conv2d ni nf ks s p w (match b with Some _ => Some (Const 0) | None => None end))
  | BatchNorm2d n _ _ => ret (BatchNorm2d n (Const 1) (Const 0))
  | Sequential ms => ms' <- mapM init_cnn ms;; ret (Sequential ms')
  | BasicBlockM c1 c2 ds s =>
      c1' <- init_cnn c1;; c2' <- init_cnn c2;; ds' <- optM init_cnn ds;;
      ret (BasicBlockM c1' c2' ds' s)
  | BottleneckM c1 c2 c3 ds s =>
      c1' <- init_cnn c1;; c2' <- init_cnn c2;; c3' <- init_cnn c3;;
      ds' <- optM init_cnn ds;;
      ret (BottleneckM c1' c2' c3' ds' s)
  | XResNetM c1 c2 c3 mp l1 l2 l3 l4 ap fc =>
      c1' <- init_cnn c1;; c2' <- init_cnn c2;; c3' <- init_cnn c3;;
      mp' <- init_cnn mp;; l1' <- init_cnn l1;; l2' <- init_cnn l2;;
      l3' <- init_cnn l3;; l4' <- init_cnn l4;; ap' <- init_cnn ap;; fc' <- init_cnn fc;;
      ret (XResNetM c1' c2' c3' mp' l1' l2' l3' l4' ap' fc')
  | _ => ret m
  end.

(** ** The loop of XResNet.__init__, lines 91-94

    [for m in self.modules()] visits the module tree in pre-order.  On a
    block it sets [m.conv2[0].weight] (BasicBlock) or [m.conv3[0].weight]
    (Bottleneck) to 0; on a Linear it redraws the weight from N(0, 0.01).
    The zeroed weight is touched again only when [conv2[0]] (resp.
    [conv3[0]]) is visited itself, so the zeroing is carried down to that
    module as the flag [zeroed]; the subscript and the attribute access are
    checked when the block is met, as Python does. *)

(** [c[0].weight] exists: [c] is subscriptable, non-empty, and its first
    module owns a weight. *)
Definition first_weight_check (c : Module) : M unit :=
  match c with
  | Sequential [] => raise IndexError
  | Sequential (x :: _) =>
      match x with
      | Conv2d _ _ _ _ _ _ _ | BatchNorm2d _ _ _ | BatchNorm1d _ _ _
      | Linear _ _ _ _ => ret tt
      | _ => raise AttributeError
      end
  | _ => raise TypeError
  end.

Definition normal_0_001 : Dist := Normal 0 (1 # 100).

Fixpoint post_init (zeroed : bool) (m : Module) : M Module :=
  let zw (p : Param) := if zeroed then Const 0 else p in
  (* visiting the path whose first weight the enclosing block zeroed *)
  let zpath (c : Module) : M Module :=
    match c with
    | Sequential (x :: r) =>
        x' <- post_init true x;; r' <- mapM (post_init false) r;;
        ret (Sequential (x' :: r'))
    | Sequential [] => raise IndexError
    | _ => raise TypeError
    end in
  match m with
  | Conv2d ni nf ks s p w b => ret (Conv2d ni nf ks s p (zw w) b)
  | BatchNorm2d n w b => ret (BatchNorm2d n (zw w) b)
  | BatchNorm1d n w b => ret (BatchNorm1d n (zw w) b)
  | Linear i o _ b => w <- draw normal_0_001;; ret (Linear i o w b)
  | Sequential ms => ms' <- mapM (post_init false) ms;; ret (Sequential ms')
  | BasicBlockM c1 c2 ds s =>
      _ <- first_weight_check c2;;
      c1' <- post_init false c1;; c2' <- zpath c2;; ds' <- optM (post_init false) ds;;
      ret (BasicBlockM c1' c2' ds' s)
  | BottleneckM c1 c2 c3 ds s =>
      _ <- first_weight_check c3;;
      c1' <- post_init false c1;; c2' <- post_init false c2;; c3' <- zpath c3;;
      ds' <- optM (post_init false) ds;;
      ret (BottleneckM c1' c2' c3' ds' s)
  | XResNetM c1 c2 c3 mp l1 l2 l3 l4 ap fc =>
      c1' <- post_init false c1;; c2' <- post_init false c2;; c3' <- post_init false c3;;
      mp' <- post_init false mp;; l1' <- post_init false l1;; l2' <- post_init false l2;;
      l3' <- post_init false l3;; l4' <- post_init false l4;;
      ap' <- post_init false ap;; fc' <- post_init false fc;;
      ret (XResNetM c1' c2' c3' mp' l1' l2' l3' l4' ap' fc')
  | _ => ret m
  end.

(** ** XResNet.__init__, lines 71-94 ([num_classes] defaults to 1000) *)

(** [l[i]] on a Python list *)
Definition getitem {A} (l : list A) (i : nat) : M A :=
  match nth_error l i with Some x => ret x | None => raise IndexError end.

Definition XResNet_init (block : BlockClass) (layers : list Z) (num_classes : Z)
  : M Module :=
  let ni := 64 in
  c1 <- conv_bn_relu 3 32 3 2;;
  c2 <- conv_bn_relu 32 32 3 1;;
  c3 <- conv 32 64 3 1 false;;
  let mp := MaxPool2d 3 2 1 in
  n0 <- getitem layers 0;; '(l1, ni) <- make_layer ni block 64 n0 1;;
  n1 <- getitem layers 1;; '(l2, ni) <- make_layer ni block 128 n1 2;;
  n2 <- getitem layers 2;; '(l3, ni) <- make_layer ni block 256 n2 2;;
  n3 <- getitem layers 3;; '(l4, ni) <- make_layer ni block 512 n3 2;;
  let ni := 512 * expansion block in
  let ap := AdaptiveAvgPool2d 1 in
  bn <- nnBatchNorm1d ni;;
  lin <- nnLinear ni num_classes;;
  let fc := Sequential [ReLU; bn; lin] in
  m <- init_cnn (XResNetM c1 c2 c3 mp l1 l2 l3 l4 ap fc);;
  post_init false m.

(** ** xresnet and its five entry points, lines 129-150

    [torch.load] and [Module.load_state_dict] belong to the framework; they
    are left abstract. *)

Section Pretrained.
Variable StateDict : Type.
Variable torch_load : string -> M StateDict.
Variable load_state_dict : Module -> StateDict -> M Module.

Definition model_urls : list (string * string) :=
  [("xresnet34", "xresnet34"); ("xresnet50", "xresnet50")]%string.

(** [d[k]] on a Python dict *)
Fixpoint dict_getitem (d : list (string * string)) (k : string) : M string :=
  match d with
  | [] => raise KeyError
  | (k', v) :: d' => if String.eqb k k' then ret v else dict_getitem d' k
  end.

Definition xresnet (block : BlockClass) (n_layers : list Z) (name : string)
    (pre : bool) (num_classes : Z) : M Module :=
  model <- XResNet_init block n_layers num_classes;;
  if pre then
    url <- dict_getitem model_urls name;;
    sd <- torch_load url;;
    load_state_dict model sd
  else ret model.

Definition xresnet18 (pretrained : bool) (num_classes : Z) :=
  xresnet BasicBlock [2; 2; 2; 2] "xresnet18" pretrained num_classes.
Definition xresnet34 (pretrained : bool) (num_classes : Z) :=
  xresnet BasicBlock [3; 4; 6; 3] "xresnet34" pretrained num_classes.
Definition xresnet50 (pretrained : bool) (num_classes : Z) :=
  xresnet Bottleneck [3; 4; 6; 3] "xresnet50" pretrained num_classes.
Definition xresnet101 (pretrained : bool) (num_classes : Z) :=
  xresnet Bottleneck [3; 4; 23; 3] "xresnet101" pretrained num_classes.
Definition xresnet152 (pretrained : bool) (num_classes : Z) :=
  xresnet Bottleneck [3; 8; 36; 3] "xresnet152" pretrained num_classes.
End Pretrained.

(** ** forward

    The tensor operations come from the framework and are left abstract.
    The in-place operations of the file ([nn.ReLU(inplace=True)] and
    [x += identity]) only ever write to a tensor freshly produced by the
    preceding layer, never to a block's input, so a functional reading of
    them is exact. *)

Class TensorOps (T : Type) := {
  conv2d_op : Z -> Z -> Z -> Z -> Z -> Param -> option Param -> T -> T;
  relu_op : T -> T;
  batchnorm2d_op : Z -> Param -> Param -> T -> T;
  batchnorm1d_op : Z -> Param -> Param -> T -> T;
  maxpool2d_op : Z -> Z -> Z -> T -> T;
  avgpool2d_op : Z -> Z -> T -> T;
  adaptive_avgpool2d_op : Z -> T -> T;
  linear_op : Z -> Z -> Param -> Param -> T -> T;
  iadd_op : T -> T -> T;        (* x += y *)
  flatten_op : T -> T           (* x.view(x.size(0), -1) *)
}.

Section Forward.
Context {T : Type} `{TensorOps T}.

Fixpoint forward (m : Module) (x : T) : T :=
  let fix seq (l : list Module) (x : T) : T :=
    match l with [] => x | y :: r => seq r (forward y x) end in
  match m with
  | Conv2d ni nf ks s p w b => conv2d_op ni nf ks s p w b x
  | ReLU => relu_op x
  | BatchNorm2d n w b => batchnorm2d_op n w b x
  | BatchNorm1d n w b => batchnorm1d_op n w b x
  | MaxPool2d k s p => maxpool2d_op k s p x
  | AvgPool2d k s => avgpool2d_op k s x
  | AdaptiveAvgPool2d o => adaptive_avgpool2d_op o x
  | Linear i o w b => linear_op i o w b x
  | Sequential ms => seq ms x
  | BasicBlockM c1 c2 ds _ =>
      let identity := match ds with None => x | Some d => forward d x end in
      let x := forward c1 x in
      let x := forward c2 x in
      iadd_op x identity
  | BottleneckM c1 c2 c3 ds _ =>
      let identity := match ds with None => x | Some d => forward d x end in
      let x := forward c1 x in
      let x := forward c2 x in
      let x := forward c3 x in
      iadd_op x identity
  | XResNetM c1 c2 c3 mp l1 l2 l3 l4 ap fc =>
      let x := forward c1 x in
      let x := forward c2 x in
      let x := forward c3 x in
      let x := forward mp x in
      let x := forward l1 x in
      let x := forward l2 x in
      let x := forward l3 x in
      let x := forward l4 x in
      let x := forward ap x in
      let x := flatten_op x in
      forward fc x
  end.
End Forward.

(** ** Shape semantics (PyTorch's output-size rules, evaluation mode)

    A tensor is read as its list of dimensions; the errors are the
    framework's run-time errors on mismatching inputs.  The model is in
    evaluation mode ([model.eval()]): the batch norms use their running
    statistics, so the training-mode error on a single value per channel
    does not arise.  [Conv2d] and the pooling layers also take an
    unbatched [c, h, w] input; [BatchNorm2d] takes only [n, c, h, w]. *)

Inductive ShapeErr := EChannels | ERank | EOutSize | EBroadcast | EReshape.

Inductive Shape := SOk (dims : list Z) | SErr (e : ShapeErr).

(** floor((h + 2p - k) / s) + 1, which must be positive *)
Definition out_dim (h k s p : Z) : option Z :=
  if s <=? 0 then None else
  let o := (h + 2 * p - k) / s + 1 in
  if o <=? 0 then None else Some o.

Definition spatial (k s p : Z) (c' : Z -> option Z) (x : Shape) : Shape :=
  match x with
  | SOk [n; c; h; w] =>
      match c' c, out_dim h k s p, out_dim w k s p with
      | None, _, _ => SErr EChannels
      | Some c2, Some h', Some w' => SOk [n; c2; h'; w']
      | _, _, _ => SErr EOutSize
      end
  | SOk [c; h; w] =>
      match c' c, out_dim h k s p, out_dim w k s p with
      | None, _, _ => SErr EChannels
      | Some c2, Some h', Some w' => SOk [c2; h'; w']
      | _, _, _ => SErr EOutSize
      end
  | SOk _ => SErr ERank
  | SErr e => SErr e
  end.

Definition check_channels (ni : Z) (out : Z) : Z -> option Z :=
  fun c => if c =? ni then Some out else None.

(** [y] broadcasts to [x]'s shape (dimensions aligned from the right) *)
Fixpoint bcast_rev (ry rx : list Z) : bool :=
  match ry, rx with
  | [], _ => true
  | a :: ry', b :: rx' => ((a =? b) || (a =? 1)) && bcast_rev ry' rx'
  | _ :: _, [] => false
  end.

Definition last_dim_map (i o : Z) (x : Shape) : Shape :=
  match x with
  | SOk d =>
      match rev d with
      | f :: r => if f =? i then SOk (rev (o :: r)) else SErr EChannels
      | [] => SErr ERank
      end
  | SErr e => SErr e
  end.

#[local] Instance ShapeOps : TensorOps Shape := {
  conv2d_op ni nf ks s p _ _ x := spatial ks s p (check_channels ni nf) x;
  relu_op x := x;
  batchnorm2d_op n _ _ x :=
    match x with
    | SOk [b; c; h; w] => if c =? n then x else SErr EChannels
    | SOk _ => SErr ERank
    | SErr e => SErr e
    end;
  batchnorm1d_op n _ _ x :=
    match x with
    | SOk (b :: c :: r) =>
        if Nat.leb (List.length r) 1 then (if c =? n then x else SErr EChannels)
        else SErr ERank
    | SOk _ => SErr ERank
    | SErr e => SErr e
    end;
  maxpool2d_op k s p x := spatial k s p Some x;
  avgpool2d_op k s x := spatial k s 0 Some x;
  adaptive_avgpool2d_op o x :=
    match x with
    | SOk [n; c; _; _] => SOk [n; c; o; o]
    | SOk [c; _; _] => SOk [c; o; o]
    | SOk _ => SErr ERank
    | SErr e => SErr e
    end;
  linear_op i o _ _ x := last_dim_map i o x;
  iadd_op x y :=
    match x, y with
    | SOk dx, SOk dy => if bcast_rev (rev dy) (rev dx) then x else SErr EBroadcast
    | SErr e, _ => SErr e
    | _, SErr e => SErr e
    end;
  flatten_op x :=
    match x with
    | SOk (n :: r) =>
        (* view(0, -1) of a tensor with no elements is ambiguous *)
        if n =? 0 then SErr EReshape else SOk [n; fold_right Z.mul 1 r]
    | SOk [] => SErr ERank
    | SErr e => SErr e
    end
}.

Definition forward_shape (m : Module) (dims : list Z) : Shape :=
  forward m (SOk dims).

(** ** Channel semantics

    A tensor is read as its channel (feature) count, with the number of
    spatial positions when it is statically known (after
    [AdaptiveAvgPool2d]); a layer expecting another channel count, or an
    addition of tensors with different channel counts, fails. *)

Definition Chan := option (Z * option Z).

Definition chan_check (n : Z) (x : Chan) : Chan :=
  match x with Some (c, _) => if c =? n then x else None | None => None end.

#[local] Instance ChanOps : TensorOps Chan := {
  conv2d_op ni nf _ _ _ _ _ x :=
    match x with Some (c, _) => if c =? ni then Some (nf, None) else None | None => None end;
  relu_op x := x;
  batchnorm2d_op n _ _ x := chan_check n x;
  batchnorm1d_op n _ _ x := chan_check n x;
  maxpool2d_op _ _ _ x := option_map (fun '(c, _) => (c, None)) x;
  avgpool2d_op _ _ x := option_map (fun '(c, _) => (c, None)) x;
  adaptive_avgpool2d_op o x := option_map (fun '(c, _) => (c, Some (o * o))) x;
  linear_op i o _ _ x :=
    match x with Some (c, a) => if c =? i then Some (o, a) else None | None => None end;
  iadd_op x y :=
    match x, y with
    | Some (c, a), Some (c', _) => if c =? c' then Some (c, a) else None
    | _, _ => None
    end;
  flatten_op x :=
    match x with Some (c, Some a) => Some (c * a, Some 1) | _ => None end
}.

Definition forward_chan (m : Module) (c : Z) : Chan := forward m (Some (c, None)).

(** ** Architecture: a module with its parameters forgotten, or with only the
    drawn samples forgotten *)

Fixpoint map_params (f : Param -> Param) (m : Module) : Module :=
  match m with
  | Conv2d ni nf ks s p w b => Conv2d ni nf ks s p (f w) (option_map f b)
  | BatchNorm2d n w b => BatchNorm2d n (f w) (f b)
  | BatchNorm1d n w b => BatchNorm1d n (f w) (f b)
  | Linear i o w b => Linear i o (f w) (f b)
  | Sequential ms => Sequential (map (map_params f) ms)
  | BasicBlockM c1 c2 ds s =>
      BasicBlockM (map_params f c1) (map_params f c2) (option_map (map_params f) ds) s
  | BottleneckM c1 c2 c3 ds s =>
      BottleneckM (map_params f c1) (map_params f c2) (map_params f c3)
        (option_map (map_params f) ds) s
  | XResNetM c1 c2 c3 mp l1 l2 l3 l4 ap fc =>
      XResNetM (map_params f c1) (map_params f c2) (map_params f c3) (map_params f mp)
        (map_params f l1) (map_params f l2) (map_params f l3) (map_params f l4)
        (map_params f ap) (map_params f fc)
  | _ => m
  end.

(** Layer types, kernel sizes, strides, paddings and channel counts only. *)
Definition skeleton : Module -> Module := map_params (fun _ => Const 0).

(** Everything but the values drawn at random. *)
Definition erase_param (p : Param) : Param :=
  match p with Drawn d _ => Drawn d 0%nat | Const c => Const c end.
Definition erase : Module -> Module := map_params erase_param.

(** ** Initialisation predicates *)

Definition is_kaiming (p : Param) : bool :=
  match p with Drawn KaimingNormal _ => true | _ => false end.
Definition is_const (c : Z) (p : Param) : bool :=
  match p with Const c' => c' =? c | _ => false end.
Definition is_normal_0_001 (p : Param) : bool :=
  match p with
  | Drawn (Normal mu sd) _ => Qeq_bool mu (0 # 1) && Qeq_bool sd (1 # 100)
  | _ => false
  end.
Definition bias_zero_or_absent (b : option Param) : bool :=
  match b with None => true | Some p => is_const 0 p end.

Definition opt_all (f : Module -> bool) (o : option Module) : bool :=
  match o with None => true | Some d => f d end.

(** The state init_cnn leaves behind. *)
Fixpoint base_ok (m : Module) : bool :=
  match m with
  | Conv2d _ _ _ _ _ w b => is_kaiming w && bias_zero_or_absent b
  | BatchNorm2d _ w b => is_const 1 w && is_const 0 b
  | Sequential ms => forallb base_ok ms
  | BasicBlockM c1 c2 ds _ => base_ok c1 && base_ok c2 && opt_all base_ok ds
  | BottleneckM c1 c2 c3 ds _ =>
      base_ok c1 && base_ok c2 && base_ok c3 && opt_all base_ok ds
  | XResNetM c1 c2 c3 mp l1 l2 l3 l4 ap fc =>
      forallb base_ok [c1; c2; c3; mp; l1; l2; l3; l4; ap; fc]
  | _ => true
  end.

(** The initialisation of C4: Conv2d weights Kaiming-normal with zero or no
    bias; BatchNorm2d at weight 1 and bias 0, except the BatchNorm2d at index
    0 of the final conv path of each block, at weight 0 and bias 0; Linear
    weights drawn from N(0, 0.01). *)
Fixpoint init_spec (m : Module) : bool :=
  let final_path (c : Module) :=
    match c with
    | Sequential (BatchNorm2d _ w b :: r) => is_const 0 w && is_const 0 b && forallb init_spec r
    | _ => false
    end in
  match m with
  | Conv2d _ _ _ _ _ w b => is_kaiming w && bias_zero_or_absent b
  | BatchNorm2d _ w b => is_const 1 w && is_const 0 b
  | Linear _ _ w _ => is_normal_0_001 w
  | Sequential ms => forallb init_spec ms
  | BasicBlockM c1 c2 ds _ => init_spec c1 && final_path c2 && opt_all init_spec ds
  | BottleneckM c1 c2 c3 ds _ =>
      init_spec c1 && init_spec c2 && final_path c3 && opt_all init_spec ds
  | XResNetM c1 c2 c3 mp l1 l2 l3 l4 ap fc =>
      forallb init_spec [c1; c2; c3; mp; l1; l2; l3; l4; ap; fc]
  | _ => true
  end.

(** Every block's final conv path starts with a BatchNorm2d. *)
Definition starts_with_bn (c : Module) : bool :=
  match c with Sequential (BatchNorm2d _ _ _ :: _) => true | _ => false end.

Fixpoint wf (m : Module) : bool :=
  match m with
  | Sequential ms => forallb wf ms
  | BasicBlockM c1 c2 ds _ => wf c1 && starts_with_bn c2 && wf c2 && opt_all wf ds
  | BottleneckM c1 c2 c3 ds _ =>
      wf c1 && wf c2 && starts_with_bn c3 && wf c3 && opt_all wf ds
  | XResNetM c1 c2 c3 mp l1 l2 l3 l4 ap fc =>
      forallb wf [c1; c2; c3; mp; l1; l2; l3; l4; ap; fc]
  | _ => true
  end.

(** ** Closed forms of the builders *)

Definition neg3 (ni nf ks : Z) : bool := (ni <? 0) || (nf <? 0) || (ks <? 0).

Definition brc_result (ni nf ks s : Z) (g : Rng) : Module :=
  Sequential [BatchNorm2d ni (Const 1) (Const 0); ReLU;
              Conv2d ni nf ks s (ks / 2) (Drawn DefaultUniform g) None].

Definition cbr_result (ni nf ks s : Z) (g : Rng) : Module :=
  Sequential [Conv2d ni nf ks s (ks / 2) (Drawn DefaultUniform g) None; ReLU;
              BatchNorm2d nf (Const 1) (Const 0)].

Definition block_result (b : BlockClass) (ni nf s : Z) (ds : option Module) (g : Rng)
  : Module :=
  match b with
  | BasicBlock => BasicBlockM (brc_result ni nf 3 s g) (brc_result nf nf 3 1 (S g)) ds s
  | Bottleneck =>
      BottleneckM (brc_result ni nf 1 1 g) (brc_result nf nf 3 s (S g))
        (brc_result nf (nf * 4) 1 1 (S (S g))) ds s
  end.

Definition block_draws (b : BlockClass) : nat :=
  match b with BasicBlock => 2 | Bottleneck => 3 end.

Definition ds_result (ni : Z) (b : BlockClass) (nf stride : Z) (g : Rng) : Module :=
  Sequential ((if stride =? 2 then [AvgPool2d 2 2] else []) ++
              [Conv2d ni (nf * expansion b) 1 1 0 (Drawn DefaultUniform g) None;
               BatchNorm2d (nf * expansion b) (Const 1) (Const 0)]).

(** Size of a module tree, for induction through the zeroed paths. *)
Fixpoint msize (m : Module) : nat :=
  let osize (o : option Module) := match o with None => 0%nat | Some d => msize d end in
  match m with
  | Sequential ms => S (list_sum (map msize ms))
  | BasicBlockM c1 c2 ds _ => S (msize c1 + msize c2 + osize ds)
  | BottleneckM c1 c2 c3 ds _ => S (msize c1 + msize c2 + msize c3 + osize ds)
  | XResNetM c1 c2 c3 mp l1 l2 l3 l4 ap fc =>
      S (msize c1 + msize c2 + msize c3 + msize mp + msize l1 + msize l2 + msize l3
         + msize l4 + msize ap + msize fc)
  | _ => 1%nat
  end.

(** Channel count a block's conv path, and its identity path, produce from
    [c] input channels. *)
Definition conv_path_chan (blk : Module) (c : Z) : Chan :=
  match blk with
  | BasicBlockM c1 c2 _ _ => forward (Sequential [c1; c2]) (Some (c, None))
  | BottleneckM c1 c2 c3 _ _ => forward (Sequential [c1; c2; c3]) (Some (c, None))
  | _ => None
  end.

Definition identity_chan (blk : Module) (c : Z) : Chan :=
  match blk with
  | BasicBlockM _ _ ds _ | BottleneckM _ _ _ ds _ =>
      match ds with None => Some (c, None) | Some d => forward d (Some (c, None)) end
  | _ => None
  end.

(** ** Equality up to the drawn values

    [er] forgets the samples drawn at random in a value of the construction;
    [Agree c1 c2] says that two computations, run from any two generator
    states, raise the same exception or return values equal up to [er]. *)

Class Erasable (A : Type) := er : A -> A.
#[global] Instance erasable_Module : Erasable Module := erase.
#[global] Instance erasable_Param : Erasable Param := erase_param.
#[global] Instance erasable_Z : Erasable Z := fun z => z.
#[global] Instance erasable_unit : Erasable unit := fun u => u.
#[global] Instance erasable_list {A} `{Erasable A} : Erasable (list A) := map er.
#[global] Instance erasable_option {A} `{Erasable A} : Erasable (option A) := option_map er.
#[global] Instance erasable_prod {A B} `{Erasable A} `{Erasable B} : Erasable (A * B) :=
  fun '(a, b) => (er a, er b).

Definition outcome {A} `{Erasable A} (r : Res A) : Res A :=
  match r with Ok a _ => Ok (er a) 0%nat | Raise e => Raise e end.

Definition Agree {A} `{Erasable A} (c1 c2 : M A) : Prop :=
  forall g1 g2, outcome (c1 g1) = outcome (c2 g2).

(** ** Counting and collecting over module trees *)

(** Number of residual blocks (BasicBlock or Bottleneck modules) in a tree. *)
Fixpoint count_blocks (m : Module) : nat :=
  let ocount (o : option Module) :=
    match o with None => 0%nat | Some d => count_blocks d end in
  match m with
  | Sequential ms => list_sum (map count_blocks ms)
  | BasicBlockM c1 c2 ds _ => S (count_blocks c1 + count_blocks c2 + ocount ds)
  | BottleneckM c1 c2 c3 ds _ =>
      S (count_blocks c1 + count_blocks c2 + count_blocks c3 + ocount ds)
  | XResNetM c1 c2 c3 mp l1 l2 l3 l4 ap fc =>
      list_sum (map count_blocks [c1; c2; c3; mp; l1; l2; l3; l4; ap; fc])
  | _ => 0%nat
  end.

(** The parameters of the Linear and BatchNorm1d modules, in pre-order. *)
Fixpoint lin_bn1d_params (m : Module) : list Param :=
  let oparams (o : option Module) :=
    match o with None => [] | Some d => lin_bn1d_params d end in
  match m with
  | BatchNorm1d _ w b => [w; b]
  | Linear _ _ w b => [w; b]
  | Sequential ms => flat_map lin_bn1d_params ms
  | BasicBlockM c1 c2 ds _ => lin_bn1d_params c1 ++ lin_bn1d_params c2 ++ oparams ds
  | BottleneckM c1 c2 c3 ds _ =>
      lin_bn1d_params c1 ++ lin_bn1d_params c2 ++ lin_bn1d_params c3 ++ oparams ds
  | XResNetM c1 c2 c3 mp l1 l2 l3 l4 ap fc =>
      flat_map lin_bn1d_params [c1; c2; c3; mp; l1; l2; l3; l4; ap; fc]
  | _ => []
  end.


(** A side of length [h] passes a stride-2 block: the conv path gives
    ceil(h/2), the AvgPool2d(2, 2) of the downsample floor(h/2), and the
    second broadcasts to the first only when they agree or the second is 1. *)
Definition side_ok (h : Z) : bool := (h mod 2 =? 0) || (h =? 3).

(** ** Lemmas on the monad *)

Lemma bind_Ok {A B} (c : M A) (k : A -> M B) g b g' :
  bind c k g = Ok b g' -> exists a g1, c g = Ok a g1 /\ k a g1 = Ok b g'.
Proof.
  unfold bind. destruct (c g) as [a g1|e]; [|discriminate]. eauto.
Qed.

Ltac inv_bind :=
  repeat match goal with
  | H : bind _ _ _ = Ok _ _ |- _ =>
      let a := fresh "a" in let g := fresh "g" in let E := fresh "E" in
      apply bind_Ok in H; destruct H as (a & g & E & H)
  | H : (match ?p with pair _ _ => _ end) _ = Ok _ _ |- _ => destruct p
  | H : ret _ _ = Ok _ _ |- _ => injection H; clear H; intros; subst
  | H : Ok _ _ = Ok _ _ |- _ => injection H; clear H; intros; subst
  | H : raise _ _ = Ok _ _ |- _ => discriminate H
  | H : Raise _ = Ok _ _ |- _ => discriminate H
  end.

(** Replace a closed left-hand side by its value. *)
Ltac run_concrete :=
  match goal with |- ?lhs = _ => let v := eval vm_compute in lhs in change lhs with v end.

Lemma neg3_false ni nf ks : neg3 ni nf ks = false <-> 0 <= ni /\ 0 <= nf /\ 0 <= ks.
Proof. unfold neg3. rewrite !orb_false_iff, !Z.ltb_ge. tauto. Qed.

Lemma conv_eq ni nf ks s g :
  conv ni nf ks s false g =
  if neg3 ni nf ks then Raise RuntimeError
  else Ok (Conv2d ni nf ks s (ks / 2) (Drawn DefaultUniform g) None) (S g).
Proof. unfold conv, nnConv2d, neg3. destruct (_ || _ || _); reflexivity. Qed.

Lemma conv_relu_bn_eq ni nf ks s rev g :
  conv_relu_bn_ ni nf ks s rev g =
  if neg3 ni nf ks then Raise RuntimeError
  else Ok (let c := Conv2d ni nf ks s (ks / 2) (Drawn DefaultUniform g) None in
           let bn := BatchNorm2d (if rev then ni else nf) (Const 1) (Const 0) in
           if rev then [bn; ReLU; c] else [c; ReLU; bn]) (S g).
Proof.
  unfold conv_relu_bn_, bind at 1. rewrite conv_eq.
  destruct (neg3 ni nf ks) eqn:E; [reflexivity|].
  apply neg3_false in E. unfold bind, nnBatchNorm2d, ret.
  destruct rev.
  - replace (ni <? 0) with false by (symmetry; apply Z.ltb_ge; lia). reflexivity.
  - replace (nf <? 0) with false by (symmetry; apply Z.ltb_ge; lia). reflexivity.
Qed.

Lemma bn_relu_conv_eq ni nf ks s g :
  bn_relu_conv ni nf ks s g =
  if neg3 ni nf ks then Raise RuntimeError else Ok (brc_result ni nf ks s g) (S g).
Proof.
  unfold bn_relu_conv, bind. rewrite conv_relu_bn_eq.
  destruct (neg3 ni nf ks); reflexivity.
Qed.

Lemma conv_bn_relu_eq ni nf ks s g :
  conv_bn_relu ni nf ks s g =
  if neg3 ni nf ks then Raise RuntimeError else Ok (cbr_result ni nf ks s g) (S g).
Proof.
  unfold conv_bn_relu, bind. rewrite conv_relu_bn_eq.
  destruct (neg3 ni nf ks); reflexivity.
Qed.

Lemma block_new_eq b ni nf s ds g :
  block_new b ni nf s ds g =
  if (ni <? 0) || (nf <? 0) then Raise RuntimeError
  else Ok (block_result b ni nf s ds g) (block_draws b + g)%nat.
Proof.
  assert (Hm : forall z, (z <? 0) = false -> (z * 4 <? 0) = false)
    by (intros z Hz; apply Z.ltb_ge; apply Z.ltb_ge in Hz; lia).
  destruct b; simpl; unfold BasicBlock_init, Bottleneck_init, bind;
    rewrite bn_relu_conv_eq; unfold neg3 at 1;
    destruct (ni <? 0) eqn:E1; try reflexivity;
    destruct (nf <? 0) eqn:E2; try reflexivity;
    repeat (simpl; rewrite bn_relu_conv_eq; unfold neg3; rewrite ?E2, ?(Hm nf E2));
    reflexivity.
Qed.

Lemma repeatM_inv {A} (c : M A) n g l g' :
  repeatM n c g = Ok l g' ->
  length l = n /\ Forall (fun x => exists h h', c h = Ok x h') l.
Proof.
  revert g l g'. induction n as [|n IH]; intros g l g' H; simpl in H; inv_bind.
  - split; [reflexivity | constructor].
  - destruct (IH _ _ _ E0) as [Hl HF]. split; simpl; [congruence|].
    constructor; eauto.
Qed.

Lemma repeatM_ok {A} (c : M A) :
  (forall h, exists x h', c h = Ok x h') ->
  forall n g, exists l g', repeatM n c g = Ok l g'.
Proof.
  intros Hc n. induction n as [|n IH]; intros g; simpl.
  - eexists; eexists; reflexivity.
  - destruct (Hc g) as (x & h & Ex). destruct (IH h) as (l & g' & El).
    exists (x :: l), g'. unfold bind. rewrite Ex, El. reflexivity.
Qed.

Lemma expansion_pos b : 0 < expansion b.
Proof. destruct b; simpl; lia. Qed.

Lemma make_layer_inv ni b nf blocks stride g layer ni' g' :
  make_layer ni b nf blocks stride g = Ok (layer, ni') g' ->
  ni' = nf * expansion b /\ 0 <= ni /\ 0 <= nf /\
  exists ds g1 rest,
    ((stride = 1 /\ ni = nf * expansion b) /\ ds = None /\ g1 = g \/
     ~ (stride = 1 /\ ni = nf * expansion b) /\ ds = Some (ds_result ni b nf stride g)
       /\ g1 = S g) /\
    repeatM (Z.to_nat (blocks - 1)) (block_new b (nf * expansion b) nf 1 None)
      (block_draws b + g1)%nat = Ok rest g' /\
    layer = Sequential (block_result b ni nf stride ds g1 :: rest).
Proof.
  intros H. unfold make_layer in H. inv_bind.
  rewrite block_new_eq in E0.
  destruct ((ni <? 0) || (nf <? 0)) eqn:Eneg; [discriminate|].
  apply orb_false_iff in Eneg. destruct Eneg as [Eni Enf].
  apply Z.ltb_ge in Eni, Enf. inv_bind.
  split; [reflexivity|]. split; [lia|]. split; [lia|].
  exists a, g0, a1. split; [|split; [exact E1|reflexivity]].
  destruct (negb (stride =? 1) || negb (ni =? nf * expansion b)) eqn:Ec.
  - right. split.
    + intros [H1 H2]. rewrite H1, H2, !Z.eqb_refl in Ec. discriminate.
    + unfold bind in E. rewrite conv_eq in E.
      destruct (neg3 ni (nf * expansion b) 1) eqn:En; [discriminate|].
      apply neg3_false in En. unfold nnBatchNorm2d in E.
      replace (nf * expansion b <? 0) with false in E
        by (symmetry; apply Z.ltb_ge; lia).
      cbn [ret] in E. injection E; intros; subst. split; reflexivity.
  - left. apply orb_false_iff in Ec. destruct Ec as [E1' E2'].
    apply negb_false_iff, Z.eqb_eq in E1', E2'. inv_bind. auto.
Qed.

Lemma make_layer_ok ni b nf blocks stride g :
  0 <= ni -> 0 <= nf ->
  exists layer g', make_layer ni b nf blocks stride g = Ok (layer, nf * expansion b) g'.
Proof.
  intros Hni Hnf. pose proof (expansion_pos b) as Hp.
  assert (Hc : forall h, exists x h',
             block_new b (nf * expansion b) nf 1 None h = Ok x h').
  { intros h. rewrite block_new_eq.
    replace ((nf * expansion b <? 0) || (nf <? 0)) with false
      by (symmetry; apply orb_false_iff; split; apply Z.ltb_ge; lia).
    eauto. }
  assert (Hb : forall ds h, exists x h', block_new b ni nf stride ds h = Ok x h').
  { intros ds h. rewrite block_new_eq.
    replace ((ni <? 0) || (nf <? 0)) with false
      by (symmetry; apply orb_false_iff; split; apply Z.ltb_ge; lia).
    eauto. }
  unfold make_layer, bind.
  destruct (negb (stride =? 1) || negb (ni =? nf * expansion b)).
  - rewrite conv_eq.
    replace (neg3 ni (nf * expansion b) 1) with false
      by (symmetry; apply neg3_false; lia).
    unfold nnBatchNorm2d. replace (nf * expansion b <? 0) with false
      by (symmetry; apply Z.ltb_ge; lia).
    cbn [ret]. change (1 / 2) with 0.
    destruct (Hb (Some (ds_result ni b nf stride g)) (S g)) as (x & h & Ex).
    unfold ds_result in Ex. rewrite Ex.
    destruct (repeatM_ok _ Hc (Z.to_nat (blocks - 1)) h) as (l & g' & El).
    rewrite El. eexists; eexists; reflexivity.
  - cbn [ret]. destruct (Hb None g) as (x & h & Ex). rewrite Ex.
    destruct (repeatM_ok _ Hc (Z.to_nat (blocks - 1)) h) as (l & g' & El).
    rewrite El. eexists; eexists; reflexivity.
Qed.

(** ** C9: bn_relu_conv and conv_bn_relu *)

(** C9: for all ni, nf, ks, stride (and any generator state), bn_relu_conv
    yields [BatchNorm2d(ni), ReLU, Conv2d(ni->nf)] and conv_bn_relu yields
    [Conv2d(ni->nf), ReLU, BatchNorm2d(nf)] with the same convolution: the
    first list is the reversal of the second with the BatchNorm over ni
    instead of nf.  (When a channel count or the kernel size is negative the
    framework refuses both alike.) *)
Theorem bn_relu_conv_reverses_conv_bn_relu ni nf ks stride g :
  (exists w,
     let c := Conv2d ni nf ks stride (ks / 2) w None in
     bn_relu_conv ni nf ks stride g =
       Ok (Sequential [BatchNorm2d ni (Const 1) (Const 0); ReLU; c]) (S g) /\
     conv_bn_relu ni nf ks stride g =
       Ok (Sequential [c; ReLU; BatchNorm2d nf (Const 1) (Const 0)]) (S g) /\
     [BatchNorm2d ni (Const 1) (Const 0); ReLU; c] =
       rev [c; ReLU; BatchNorm2d ni (Const 1) (Const 0)])
  \/ (bn_relu_conv ni nf ks stride g = Raise RuntimeError /\
      conv_bn_relu ni nf ks stride g = Raise RuntimeError).
Proof.
  rewrite bn_relu_conv_eq, conv_bn_relu_eq.
  destruct (neg3 ni nf ks).
  - right. split; reflexivity.
  - left. exists (Drawn DefaultUniform g). repeat split.
Qed.

(** ** C2 and C3: _make_layer *)

(** C2: for every block class, nf >= 0 (a channel count; self.ni >= 0 too),
    blocks >= 1 and stride, _make_layer returns a Sequential of exactly
    [blocks] blocks; the first is built by [block(self.ni, nf, stride,
    downsample)], each following one by [block(nf*expansion, nf)], that is
    with stride 1 and no downsample. *)
Theorem make_layer_blocks b ni nf blocks stride g :
  0 <= ni -> 0 <= nf -> 1 <= blocks ->
  exists b0 rest ds g1 g2 g',
    make_layer ni b nf blocks stride g = Ok (Sequential (b0 :: rest), nf * expansion b) g' /\
    length (b0 :: rest) = Z.to_nat blocks /\
    block_new b ni nf stride ds g1 = Ok b0 g2 /\
    Forall (fun x => exists h h', block_new b (nf * expansion b) nf 1 None h = Ok x h') rest.
Proof.
  intros Hni Hnf Hbl.
  destruct (make_layer_ok ni b nf blocks stride g Hni Hnf) as (layer & g' & E).
  pose proof E as E'.
  apply make_layer_inv in E'.
  destruct E' as (_ & _ & _ & ds & g1 & rest & Hds & Er & ->).
  apply repeatM_inv in Er. destruct Er as [Hlen HF].
  exists (block_result b ni nf stride ds g1), rest, ds, g1, (block_draws b + g1)%nat, g'.
  split; [exact E|]. split.
  - simpl. rewrite Hlen. lia.
  - split; [|exact HF]. rewrite block_new_eq.
    replace ((ni <? 0) || (nf <? 0)) with false
      by (symmetry; apply orb_false_iff; split; apply Z.ltb_ge; lia).
    reflexivity.
Qed.

(** Witness of C2 at self.ni = 64, nf = 128, blocks = 3, stride = 2. *)
Lemma make_layer_blocks_witness :
  (0 <= 64 /\ 0 <= 128 /\ 1 <= 3) /\
  exists b0 rest ds g1 g2 g',
    make_layer 64 BasicBlock 128 3 2 0%nat = Ok (Sequential (b0 :: rest), 128 * expansion BasicBlock) g' /\
    length (b0 :: rest) = Z.to_nat 3 /\
    block_new BasicBlock 64 128 2 ds g1 = Ok b0 g2 /\
    Forall (fun x => exists h h', block_new BasicBlock (128 * expansion BasicBlock) 128 1 None h = Ok x h') rest.
Proof.
  split; [lia|]. apply (make_layer_blocks BasicBlock 64 128 3 2 0%nat); lia.
Defined.

(** C3: a downsample branch exists iff stride <> 1 or self.ni <> nf*expansion;
    it is Sequential([AvgPool2d(2, 2) when stride = 2] ++ [1x1 Conv2d from
    self.ni to nf*expansion; BatchNorm2d(nf*expansion)]), and it is the
    downsample of the first block. *)
Theorem make_layer_downsample ni b nf blocks stride g layer ni' g' :
  make_layer ni b nf blocks stride g = Ok (layer, ni') g' ->
  exists ds b0 rest g1 g2,
    layer = Sequential (b0 :: rest) /\
    block_new b ni nf stride ds g1 = Ok b0 g2 /\
    (ds = None <-> stride = 1 /\ ni = nf * expansion b) /\
    (forall d, ds = Some d -> exists w,
        d = Sequential ((if stride =? 2 then [AvgPool2d 2 2] else []) ++
              [Conv2d ni (nf * expansion b) 1 1 0 w None;
               BatchNorm2d (nf * expansion b) (Const 1) (Const 0)])).
Proof.
  intros E. apply make_layer_inv in E.
  destruct E as (_ & Hni & Hnf & ds & g1 & rest & Hds & _ & ->).
  exists ds, (block_result b ni nf stride ds g1), rest, g1, (block_draws b + g1)%nat.
  split; [reflexivity|]. split.
  { rewrite block_new_eq.
    replace ((ni <? 0) || (nf <? 0)) with false
      by (symmetry; apply orb_false_iff; split; apply Z.ltb_ge; lia).
    reflexivity. }
  destruct Hds as [(Hc & -> & ->) | (Hc & -> & ->)].
  - split; [tauto|]. intros d Hd; discriminate.
  - split.
    + split; [discriminate | intros H; contradiction].
    + intros d Hd. injection Hd as <-. eexists. reflexivity.
Qed.

(** Witness of C3 at self.ni = 64, nf = 128, blocks = 2, stride = 2. *)
Lemma make_layer_downsample_witness :
  exists layer ni' g',
    make_layer 64 BasicBlock 128 2 2 0%nat = Ok (layer, ni') g' /\
    exists ds b0 rest g1 g2,
      layer = Sequential (b0 :: rest) /\
      block_new BasicBlock 64 128 2 ds g1 = Ok b0 g2 /\
      (ds = None <-> 2 = 1 /\ 64 = 128 * expansion BasicBlock) /\
      (forall d, ds = Some d -> exists w,
          d = Sequential ((if 2 =? 2 then [AvgPool2d 2 2] else []) ++
                [Conv2d 64 (128 * expansion BasicBlock) 1 1 0 w None;
                 BatchNorm2d (128 * expansion BasicBlock) (Const 1) (Const 0)])).
Proof.
  do 3 eexists. split; [run_concrete; reflexivity|].
  eapply (make_layer_downsample 64 BasicBlock 128 2 2 0%nat).
  run_concrete. reflexivity.
Defined.

(** ** Structural lemmas on module trees *)

Lemma Module_size_ind (P : Module -> Prop) :
  (forall m, (forall m', (msize m' < msize m)%nat -> P m') -> P m) -> forall m, P m.
Proof.
  intros H m. remember (msize m) as n eqn:Hn.
  revert m Hn. induction n as [n IH] using (well_founded_induction lt_wf).
  intros m ->. apply H. intros m' Hm'. exact (IH _ Hm' m' eq_refl).
Qed.

Lemma msize_in y ms : In y ms -> (msize y < msize (Sequential ms))%nat.
Proof.
  induction ms as [|x r IH]; simpl; [tauto|].
  intros [<-|Hy]; [lia|]. specialize (IH Hy). simpl in IH. lia.
Qed.

Ltac size_tac :=
  match goal with
  | Hy : In ?y ?ms |- (msize ?y < _)%nat =>
      pose proof (msize_in y ms Hy); simpl in *; lia
  | _ => simpl; lia
  end.

Lemma mapM_inv {A B} (f : A -> M B) l g l' g' :
  mapM f l g = Ok l' g' -> Forall2 (fun x y => exists h h', f x h = Ok y h') l l'.
Proof.
  revert g l' g'. induction l as [|x r IH]; intros g l' g' H; simpl in H; inv_bind.
  - constructor.
  - constructor; eauto.
Qed.

Lemma optM_inv {A B} (f : A -> M B) o g o' g' :
  optM f o g = Ok o' g' ->
  match o, o' with
  | None, None => True
  | Some x, Some y => exists h h', f x h = Ok y h'
  | _, _ => False
  end.
Proof. destruct o; simpl; intros H; inv_bind; eauto. Qed.

Lemma mapM_ok {A B} (f : A -> M B) l :
  (forall x, In x l -> forall h, exists y h', f x h = Ok y h') ->
  forall g, exists l' g', mapM f l g = Ok l' g'.
Proof.
  induction l as [|x r IH]; intros Hf g; simpl.
  - eexists; eexists; reflexivity.
  - destruct (Hf x (or_introl eq_refl) g) as (y & h & Ey).
    destruct (IH (fun z Hz => Hf z (or_intror Hz)) h) as (l' & g' & El).
    exists (y :: l'), g'. unfold bind. rewrite Ey, El. reflexivity.
Qed.

Lemma Forall2_map_eq (h : Module -> Module) (R : Module -> Module -> Prop) l l' :
  (forall x y, In x l -> R x y -> h y = h x) -> Forall2 R l l' -> map h l' = map h l.
Proof.
  intros H HF. induction HF as [|x y l l' Hxy HF IH]; simpl; [reflexivity|].
  f_equal.
  - apply H; simpl; auto.
  - apply IH. intros; apply H; simpl; auto.
Qed.
Lemma init_cnn_skeleton : forall m g m' g', init_cnn m g = Ok m' g' -> skeleton m' = skeleton m.
Proof.
  induction m as [m IH] using Module_size_ind.
  intros g m' g' H. unfold skeleton in *.
  destruct m; cbn [init_cnn] in H; inv_bind; cbn [map_params]; try reflexivity.
  - destruct bias; reflexivity.
  - f_equal. apply mapM_inv in E. eapply Forall2_map_eq; [|exact E].
    intros x y Hx (h & h' & Exy). eapply IH; [size_tac | exact Exy].
  - apply optM_inv in E1. f_equal; [eapply IH; [size_tac|eassumption] .. |].
    destruct downsample, a1; try contradiction; [|reflexivity].
    destruct E1 as (h & h' & E1). cbn [option_map]. f_equal. eapply IH; [size_tac|eassumption].
  - apply optM_inv in E2. f_equal; [eapply IH; [size_tac|eassumption] .. |].
    destruct downsample, a2; try contradiction; [|reflexivity].
    destruct E2 as (h & h' & E2). cbn [option_map]. f_equal. eapply IH; [size_tac|eassumption].
  - f_equal; eapply IH; try eassumption; size_tac.
Qed.

Lemma post_init_skeleton :
  forall m z g m' g', post_init z m g = Ok m' g' -> skeleton m' = skeleton m.
Proof.
  induction m as [m IH] using Module_size_ind.
  intros z g m' g' H. unfold skeleton in *.
  destruct m; cbn [post_init] in H; inv_bind; cbn [map_params]; try reflexivity.
  - f_equal. apply mapM_inv in E. eapply Forall2_map_eq; [|exact E].
    intros x y Hx (h & h' & Exy). eapply IH; [size_tac | exact Exy].
  - apply optM_inv in E2.
    destruct m2 as [| | | | | | | |ms| | |]; inv_bind.
    destruct ms as [|x r]; inv_bind.
    apply mapM_inv in E4.
    cbn [map_params map]. f_equal; [eapply IH; [size_tac|eassumption] | | ].
    + f_equal. f_equal; [eapply IH; [|eassumption]; simpl; lia|].
      eapply Forall2_map_eq; [|exact E4].
      intros y y' Hy (h & h' & Ey). eapply IH; [|exact Ey].
      pose proof (msize_in y (x :: r) (or_intror Hy)). simpl in *; lia.
    + destruct downsample, a2; try contradiction; [|reflexivity].
      destruct E2 as (h & h' & E2). cbn [option_map]. f_equal.
      eapply IH; [size_tac|eassumption].
  - apply optM_inv in E3.
    destruct m3 as [| | | | | | | |ms| | |]; inv_bind.
    destruct ms as [|x r]; inv_bind.
    apply mapM_inv in E5.
    cbn [map_params map]. f_equal; [eapply IH; [size_tac|eassumption] .. | | ].
    + f_equal. f_equal; [eapply IH; [|eassumption]; simpl; lia|].
      eapply Forall2_map_eq; [|exact E5].
      intros y y' Hy (h & h' & Ey). eapply IH; [|exact Ey].
      pose proof (msize_in y (x :: r) (or_intror Hy)). simpl in *; lia.
    + destruct downsample, a3; try contradiction; [|reflexivity].
      destruct E3 as (h & h' & E3). cbn [option_map]. f_equal.
      eapply IH; [size_tac|eassumption].
  - f_equal; eapply IH; try eassumption; size_tac.
Qed.

(** ** Inversion of XResNet.__init__ *)

Lemma getitem_Ok {A} (l : list A) i g x g' :
  getitem l i g = Ok x g' -> nth_error l i = Some x /\ g' = g.
Proof. unfold getitem. destruct (nth_error l i); intros H; inv_bind; auto. Qed.

Lemma XResNet_init_inv block layers nc g m g' :
  XResNet_init block layers nc g = Ok m g' ->
  exists n0 n1 n2 n3 l1 l2 l3 l4 ni1 ni2 ni3 ni4 h1 h2 h3 h4 lin h5 m1 h6,
    nth_error layers 0 = Some n0 /\ nth_error layers 1 = Some n1 /\
    nth_error layers 2 = Some n2 /\ nth_error layers 3 = Some n3 /\
    make_layer 64 block 64 n0 1 (3 + g)%nat = Ok (l1, ni1) h1 /\
    make_layer ni1 block 128 n1 2 h1 = Ok (l2, ni2) h2 /\
    make_layer ni2 block 256 n2 2 h2 = Ok (l3, ni3) h3 /\
    make_layer ni3 block 512 n3 2 h3 = Ok (l4, ni4) h4 /\
    nnLinear (512 * expansion block) nc h4 = Ok lin h5 /\
    init_cnn (XResNetM (cbr_result 3 32 3 2 g) (cbr_result 32 32 3 1 (S g))
                (Conv2d 32 64 3 1 1 (Drawn DefaultUniform (S (S g))) None)
                (MaxPool2d 3 2 1) l1 l2 l3 l4 (AdaptiveAvgPool2d 1)
                (Sequential [ReLU; BatchNorm1d (512 * expansion block) (Const 1) (Const 0); lin]))
      h5 = Ok m1 h6 /\
    post_init false m1 h6 = Ok m g'.
Proof.
  intros H. unfold XResNet_init in H. inv_bind.
  rewrite conv_bn_relu_eq in E, E0. rewrite conv_eq in E1. simpl in E, E0, E1.
  inv_bind.
  apply getitem_Ok in E2, E4, E6, E8.
  destruct E2 as [? ->], E4 as [? ->], E6 as [? ->], E8 as [? ->].
  unfold nnBatchNorm1d in E10.
  replace (512 * expansion block <? 0) with false in E10
    by (symmetry; apply Z.ltb_ge; pose proof (expansion_pos block); lia).
  inv_bind.
  do 20 eexists. repeat split; eassumption.
Qed.

(** ** Well-formedness: every block's final conv path starts with a
    BatchNorm2d *)

Lemma forallb_map_eq (f f' : Module -> bool) (h : Module -> Module) l :
  (forall x, In x l -> f (h x) = f' x) -> forallb f (map h l) = forallb f' l.
Proof.
  induction l as [|x r IH]; intros H; simpl; [reflexivity|].
  rewrite H by (simpl; auto). f_equal. apply IH. intros; apply H; simpl; auto.
Qed.

Lemma wf_skeleton : forall m, wf (skeleton m) = wf m.
Proof.
  induction m as [m IH] using Module_size_ind.
  unfold skeleton in *. destruct m; cbn [map_params wf]; try reflexivity.
  - apply forallb_map_eq. intros x Hx. apply IH. size_tac.
  - rewrite !IH by size_tac. destruct m2 as [| | | | | | | |[|[]]| | |]; try reflexivity;
    destruct downsample; cbn [option_map opt_all]; rewrite ?IH by size_tac; reflexivity.
  - rewrite !IH by size_tac. destruct m3 as [| | | | | | | |[|[]]| | |]; try reflexivity;
    destruct downsample; cbn [option_map opt_all]; rewrite ?IH by size_tac; reflexivity.
  - cbn [forallb]. rewrite !IH by size_tac. reflexivity.
Qed.

Lemma block_result_wf b ni nf s ds g :
  opt_all wf ds = true -> wf (block_result b ni nf s ds g) = true.
Proof. destruct b; simpl; intros ->; reflexivity. Qed.

Lemma make_layer_wf ni b nf blocks stride g layer ni' g' :
  make_layer ni b nf blocks stride g = Ok (layer, ni') g' -> wf layer = true.
Proof.
  intros H. apply make_layer_inv in H.
  destruct H as (_ & _ & Hnf & ds & g1 & rest & Hds & Er & ->).
  apply repeatM_inv in Er. destruct Er as [_ HF].
  cbn [wf forallb]. rewrite block_result_wf.
  - simpl. clear Hds. induction HF as [|x r (h & h' & Ex) HF IH]; [reflexivity|].
    simpl. rewrite IH. rewrite block_new_eq in Ex.
    destruct (_ || _); inv_bind. rewrite block_result_wf; reflexivity.
  - destruct Hds as [(_ & -> & _) | (_ & -> & _)]; [reflexivity|].
    unfold ds_result. simpl. destruct (stride =? 2); reflexivity.
Qed.

(** ** C1: XResNet.forward *)

(** C1: the model XResNet.__init__ builds is the composition, in this order,
    of conv1, conv2, conv3, maxpool, layer1..layer4, avgpool, the flattening
    [x.view(x.size(0), -1)] and fc, for every input and every reading of the
    tensor operations; its stem is conv_bn_relu(3, 32, stride=2),
    conv_bn_relu(32, 32), conv(32, 64) (up to parameter values, which
    [skeleton] forgets) and MaxPool2d(kernel_size=3, stride=2, padding=1). *)
Theorem XResNet_forward_order block layers nc g m g' :
  XResNet_init block layers nc g = Ok m g' ->
  exists c1 c2 c3 mp l1 l2 l3 l4 ap fc,
    m = XResNetM c1 c2 c3 mp l1 l2 l3 l4 ap fc /\
    (exists c h h', conv_bn_relu 3 32 3 2 h = Ok c h' /\ skeleton c1 = skeleton c) /\
    (exists c h h', conv_bn_relu 32 32 3 1 h = Ok c h' /\ skeleton c2 = skeleton c) /\
    (exists c h h', conv 32 64 3 1 false h = Ok c h' /\ skeleton c3 = skeleton c) /\
    mp = MaxPool2d 3 2 1 /\
    ap = AdaptiveAvgPool2d 1 /\
    forall (T : Type) (ops : TensorOps T) (x : T),
      forward m x =
      forward fc (flatten_op (forward ap (forward l4 (forward l3 (forward l2
        (forward l1 (forward mp (forward c3 (forward c2 (forward c1 x)))))))))).
Proof.
  intros H. apply XResNet_init_inv in H.
  destruct H as (n0 & n1 & n2 & n3 & l1 & l2 & l3 & l4 & ni1 & ni2 & ni3 & ni4 &
                 h1 & h2 & h3 & h4 & lin & h5 & m1 & h6 & _ & _ & _ & _ & _ & _ & _ & _ & _ &
                 Ei & Ep).
  cbn [init_cnn] in Ei. inv_bind. cbn [init_cnn post_init] in *. inv_bind.
  do 10 eexists. split; [reflexivity|].
  split; [|split; [|split; [|split; [reflexivity|split; [reflexivity|]]]]].
  - exists (cbr_result 3 32 3 2 g), g, (S g). split.
    + rewrite conv_bn_relu_eq. reflexivity.
    + erewrite post_init_skeleton by eassumption. eapply init_cnn_skeleton; eassumption.
  - exists (cbr_result 32 32 3 1 (S g)), (S g), (S (S g)). split.
    + rewrite conv_bn_relu_eq. reflexivity.
    + erewrite post_init_skeleton by eassumption. eapply init_cnn_skeleton; eassumption.
  - exists (Conv2d 32 64 3 1 1 (Drawn DefaultUniform (S (S g))) None), (S (S g)), (S (S (S g))).
    split; [rewrite conv_eq|]; reflexivity.
  - intros T ops x. reflexivity.
Qed.

(** ** C5: the residual blocks *)

(** C5: BasicBlock.forward x = conv2(conv1(x)) + identity and
    Bottleneck.forward x = conv3(conv2(conv1(x))) + identity, identity being x
    without downsample and downsample(x) otherwise; the blocks' conv paths
    are built by bn_relu_conv, whose forward is BatchNorm, then ReLU, then
    Conv. *)
Theorem block_forward_residual :
  (forall (T : Type) (ops : TensorOps T) c1 c2 ds s x,
     forward (BasicBlockM c1 c2 ds s) x =
     iadd_op (forward c2 (forward c1 x))
       (match ds with None => x | Some d => forward d x end)) /\
  (forall (T : Type) (ops : TensorOps T) c1 c2 c3 ds s x,
     forward (BottleneckM c1 c2 c3 ds s) x =
     iadd_op (forward c3 (forward c2 (forward c1 x)))
       (match ds with None => x | Some d => forward d x end)) /\
  (forall ni nf s ds g blk g',
     block_new BasicBlock ni nf s ds g = Ok blk g' ->
     exists c1 c2 h, blk = BasicBlockM c1 c2 ds s /\
       bn_relu_conv ni nf 3 s g = Ok c1 h /\ bn_relu_conv nf nf 3 1 h = Ok c2 g') /\
  (forall ni nf s ds g blk g',
     block_new Bottleneck ni nf s ds g = Ok blk g' ->
     exists c1 c2 c3 h h', blk = BottleneckM c1 c2 c3 ds s /\
       bn_relu_conv ni nf 1 1 g = Ok c1 h /\ bn_relu_conv nf nf 3 s h = Ok c2 h' /\
       bn_relu_conv nf (nf * 4) 1 1 h' = Ok c3 g') /\
  (forall ni nf ks s g c g',
     bn_relu_conv ni nf ks s g = Ok c g' ->
     exists w, forall (T : Type) (ops : TensorOps T) x,
       forward c x =
       conv2d_op ni nf ks s (ks / 2) w None
         (relu_op (batchnorm2d_op ni (Const 1) (Const 0) x))).
Proof.
  split; [reflexivity|]. split; [reflexivity|].
  split; [|split].
  - intros ni nf s ds g blk g' H. rewrite block_new_eq in H.
    destruct ((ni <? 0) || (nf <? 0)) eqn:En; inv_bind.
    apply orb_false_iff in En. destruct En as [E1 E2]. apply Z.ltb_ge in E1, E2.
    exists (brc_result ni nf 3 s g), (brc_result nf nf 3 1 (S g)), (S g).
    split; [reflexivity|]. rewrite !bn_relu_conv_eq.
    replace (neg3 ni nf 3) with false by (symmetry; apply neg3_false; lia).
    replace (neg3 nf nf 3) with false by (symmetry; apply neg3_false; lia).
    split; reflexivity.
  - intros ni nf s ds g blk g' H. rewrite block_new_eq in H.
    destruct ((ni <? 0) || (nf <? 0)) eqn:En; inv_bind.
    apply orb_false_iff in En. destruct En as [E1 E2]. apply Z.ltb_ge in E1, E2.
    exists (brc_result ni nf 1 1 g), (brc_result nf nf 3 s (S g)),
      (brc_result nf (nf * 4) 1 1 (S (S g))), (S g), (S (S g)).
    split; [reflexivity|]. rewrite !bn_relu_conv_eq.
    replace (neg3 ni nf 1) with false by (symmetry; apply neg3_false; lia).
    replace (neg3 nf nf 3) with false by (symmetry; apply neg3_false; lia).
    replace (neg3 nf (nf * 4) 1) with false by (symmetry; apply neg3_false; lia).
    repeat split.
  - intros ni nf ks s g c g' H. rewrite bn_relu_conv_eq in H.
    destruct (neg3 ni nf ks); inv_bind.
    exists (Drawn DefaultUniform g). intros T ops x. reflexivity.
Qed.

(** ** Channel counts *)

Lemma forward_seq_cons {T} `{TensorOps T} y r x :
  forward (Sequential (y :: r)) x = forward (Sequential r) (forward y x).
Proof. reflexivity. Qed.

Lemma brc_chan ni nf ks s g a :
  forward (brc_result ni nf ks s g) (Some (ni, a) : Chan) = Some (nf, None).
Proof. simpl. rewrite !Z.eqb_refl. reflexivity. Qed.

Lemma ds_result_chan ni b nf s g a :
  forward (ds_result ni b nf s g) (Some (ni, a) : Chan) = Some (nf * expansion b, None).
Proof.
  unfold ds_result. destruct (s =? 2); simpl; unfold chan_check; rewrite !Z.eqb_refl; reflexivity.
Qed.

Lemma block_result_paths b ni nf s ds g :
  conv_path_chan (block_result b ni nf s ds g) ni = Some (nf * expansion b, None) /\
  identity_chan (block_result b ni nf s ds g) ni =
    match ds with None => Some (ni, None) | Some d => forward d (Some (ni, None)) end.
Proof.
  destruct b; simpl; split; try reflexivity; unfold chan_check;
    rewrite ?Z.mul_1_r, ?Z.eqb_refl; reflexivity.
Qed.

Lemma forward_chan_skeleton :
  forall m (x : Chan), forward (skeleton m) x = forward m x.
Proof.
  unfold skeleton.
  induction m as [m IH] using Module_size_ind. intros x.
  destruct m; cbn [map_params]; try reflexivity.
  - assert (Hin : forall y, In y ms -> forall x,
               forward (map_params (fun _ => Const 0) y) (x : Chan) = forward y x)
      by (intros y Hy; apply IH; size_tac).
    clear IH. revert x. induction ms as [|y r IHr]; intros x; [reflexivity|].
    cbn [map]. rewrite !forward_seq_cons, Hin by (left; reflexivity).
    apply IHr. intros z Hz. apply Hin. right. exact Hz.
  - cbn [forward]. rewrite !IH by size_tac.
    destruct downsample; cbn [option_map]; [rewrite IH by size_tac|]; reflexivity.
  - cbn [forward]. rewrite !IH by size_tac.
    destruct downsample; cbn [option_map]; [rewrite IH by size_tac|]; reflexivity.
  - cbn [forward]. rewrite !IH by size_tac. reflexivity.
Qed.

Lemma block_forward_paths blk c :
  match blk with BasicBlockM _ _ _ _ | BottleneckM _ _ _ _ _ => True | _ => False end ->
  forward blk (Some (c, None) : Chan) = iadd_op (conv_path_chan blk c) (identity_chan blk c).
Proof. destruct blk; intros []; reflexivity. Qed.

Lemma block_result_forward_chan b ni nf s ds g :
  (ds = None /\ ni = nf * expansion b) \/ (exists h, ds = Some (ds_result ni b nf s h)) ->
  forward (block_result b ni nf s ds g) (Some (ni, None) : Chan) =
    Some (nf * expansion b, None).
Proof.
  pose proof (block_result_paths b ni nf s ds g) as [Hc Hi].
  intros Hds.
  assert (Hi' : identity_chan (block_result b ni nf s ds g) ni = Some (nf * expansion b, None)).
  { rewrite Hi. destruct Hds as [[-> ->] | [h ->]]; [reflexivity|].
    apply ds_result_chan. }
  rewrite block_forward_paths by (destruct b; exact I).
  rewrite Hc, Hi'. cbn [iadd_op ChanOps]. rewrite Z.eqb_refl. reflexivity.
Qed.

Lemma make_layer_chan ni b nf blocks stride g layer ni' g' :
  make_layer ni b nf blocks stride g = Ok (layer, ni') g' ->
  ni' = nf * expansion b /\
  (exists b0 rest, layer = Sequential (b0 :: rest) /\
     conv_path_chan b0 ni = Some (ni', None) /\ identity_chan b0 ni = Some (ni', None) /\
     Forall (fun blk => conv_path_chan blk ni' = Some (ni', None) /\
                        identity_chan blk ni' = Some (ni', None)) rest) /\
  forward_chan layer ni = Some (ni', None).
Proof.
  intros H. apply make_layer_inv in H.
  destruct H as (-> & Hni & Hnf & ds & g1 & rest & Hds & Er & ->).
  assert (HR : Forall (fun blk => exists h, blk = block_result b (nf * expansion b) nf 1 None h)
                 rest).
  { apply repeatM_inv in Er. destruct Er as [_ HF]. eapply Forall_impl; [|exact HF].
    intros x (h & h' & Ex). rewrite block_new_eq in Ex. destruct (_ || _); inv_bind. eauto. }
  assert (Hds' : (ds = None /\ ni = nf * expansion b) \/
                 exists h, ds = Some (ds_result ni b nf stride h)).
  { destruct Hds as [((_ & ?) & ? & _) | (_ & ? & _)]; eauto. }
  split; [reflexivity|]. split.
  - exists (block_result b ni nf stride ds g1), rest. split; [reflexivity|].
    destruct (block_result_paths b ni nf stride ds g1) as [Hc Hi].
    split; [exact Hc|]. split.
    + rewrite Hi. destruct Hds' as [[-> ->] | [h ->]]; [reflexivity | apply ds_result_chan].
    + eapply Forall_impl; [|exact HR]. intros x (h & ->).
      destruct (block_result_paths b (nf * expansion b) nf 1 None h) as [Hc' Hi'].
      rewrite Hc', Hi'. split; reflexivity.
  - unfold forward_chan. rewrite forward_seq_cons, block_result_forward_chan by exact Hds'.
    clear - HR. induction HR as [|x r (h & ->) _ IH]; [reflexivity|].
    rewrite forward_seq_cons, block_result_forward_chan by (left; split; reflexivity).
    exact IH.
Qed.

Lemma XResNet_chan block layers nc g m g' :
  XResNet_init block layers nc g = Ok m g' -> forward_chan m 3 = Some (nc, Some 1).
Proof.
  intros H. apply XResNet_init_inv in H.
  destruct H as (n0 & n1 & n2 & n3 & l1 & l2 & l3 & l4 & ni1 & ni2 & ni3 & ni4 &
                 h1 & h2 & h3 & h4 & lin & h5 & m1 & h6 & _ & _ & _ & _ &
                 E1 & E2 & E3 & E4 & El & Ei & Ep).
  unfold forward_chan. rewrite <- forward_chan_skeleton.
  rewrite (post_init_skeleton _ _ _ _ _ Ep), (init_cnn_skeleton _ _ _ _ Ei),
    forward_chan_skeleton.
  apply make_layer_chan in E1, E2, E3, E4.
  destruct E1 as [-> [_ E1]], E2 as [-> [_ E2]], E3 as [-> [_ E3]], E4 as [-> [_ E4]].
  unfold forward_chan in E1, E2, E3, E4.
  unfold nnLinear in El. destruct (_ || _); inv_bind.
  cbn -[Z.mul]. change Chan with (option (Z * option Z)) in *. rewrite E1, E2, E3, E4. cbn -[Z.mul]. unfold chan_check.
  rewrite !Z.mul_1_r, !Z.eqb_refl. reflexivity.
Qed.

Lemma init_chan_stable x z g y h h0 w h' (c : Chan) :
  post_init z y h0 = Ok w h' -> init_cnn x g = Ok y h -> forward w c = forward x c.
Proof.
  intros Hp Hi.
  rewrite <- (forward_chan_skeleton w), <- (forward_chan_skeleton x).
  rewrite (post_init_skeleton _ _ _ _ _ Hp), (init_cnn_skeleton _ _ _ _ Hi). reflexivity.
Qed.

Lemma XResNet_stages block layers nc g m g' :
  XResNet_init block layers nc g = Ok m g' ->
  exists c1 c2 c3 mp l1 l2 l3 l4 ap fc,
    m = XResNetM c1 c2 c3 mp l1 l2 l3 l4 ap fc /\
    forward_chan (Sequential [c1; c2; c3; mp]) 3 = Some (64, None) /\
    forward_chan l1 64 = Some (64 * expansion block, None) /\
    forward_chan l2 (64 * expansion block) = Some (128 * expansion block, None) /\
    forward_chan l3 (128 * expansion block) = Some (256 * expansion block, None) /\
    forward_chan l4 (256 * expansion block) = Some (512 * expansion block, None).
Proof.
  intros H. apply XResNet_init_inv in H.
  destruct H as (n0 & n1 & n2 & n3 & l1 & l2 & l3 & l4 & ni1 & ni2 & ni3 & ni4 &
                 h1 & h2 & h3 & h4 & lin & h5 & m1 & h6 & _ & _ & _ & _ &
                 E1 & E2 & E3 & E4 & _ & Ei & Ep).
  apply make_layer_chan in E1, E2, E3, E4.
  destruct E1 as [-> [_ E1]], E2 as [-> [_ E2]], E3 as [-> [_ E3]], E4 as [-> [_ E4]].
  unfold forward_chan in *.
  cbn [init_cnn] in Ei. inv_bind. cbn [post_init] in Ep. inv_bind.
  do 10 eexists. split; [reflexivity|].
  split; [|split; [|split; [|split]]];
    [| erewrite init_chan_stable by eassumption; eassumption .. ].
  rewrite !forward_seq_cons, (init_chan_stable _ _ _ _ _ _ _ _ _ E5 E),
    (init_chan_stable _ _ _ _ _ _ _ _ _ E6 E0). reflexivity.
Qed.

(** ** C6: channel chaining *)

(** C6: after _make_layer(block, nf, blocks, stride), self.ni is
    nf*block.expansion; the first block's conv path and identity path both
    map self.ni channels to nf*block.expansion, every later block's both map
    nf*block.expansion to itself, and the layer maps self.ni channels to
    nf*block.expansion; in the model, each stage takes the channel count the
    previous one produces (64, 64e, 128e, 256e into 64e, 128e, 256e, 512e),
    and the whole network maps 3 channels to num_classes.  Only channel
    counts are stated: the spatial sizes of the two paths need not agree,
    which makes the residual addition fail (see the counterexample). *)
Theorem channel_chaining :
  (forall ni b nf blocks stride g layer ni' g',
     make_layer ni b nf blocks stride g = Ok (layer, ni') g' ->
     ni' = nf * expansion b /\
     (exists b0 rest, layer = Sequential (b0 :: rest) /\
        conv_path_chan b0 ni = Some (ni', None) /\ identity_chan b0 ni = Some (ni', None) /\
        Forall (fun blk => conv_path_chan blk ni' = Some (ni', None) /\
                           identity_chan blk ni' = Some (ni', None)) rest) /\
     forward_chan layer ni = Some (ni', None)) /\
  (forall block layers nc g m g',
     XResNet_init block layers nc g = Ok m g' ->
     (exists c1 c2 c3 mp l1 l2 l3 l4 ap fc,
        m = XResNetM c1 c2 c3 mp l1 l2 l3 l4 ap fc /\
        forward_chan (Sequential [c1; c2; c3; mp]) 3 = Some (64, None) /\
        forward_chan l1 64 = Some (64 * expansion block, None) /\
        forward_chan l2 (64 * expansion block) = Some (128 * expansion block, None) /\
        forward_chan l3 (128 * expansion block) = Some (256 * expansion block, None) /\
        forward_chan l4 (256 * expansion block) = Some (512 * expansion block, None)) /\
     forward_chan m 3 = Some (nc, Some 1)).
Proof.
  split; [exact make_layer_chan|].
  intros block layers nc g m g' H. split.
  - exact (XResNet_stages _ _ _ _ _ _ H).
  - exact (XResNet_chan _ _ _ _ _ _ H).
Qed.

(** C6, counterexample to "the residual addition is shape-compatible": a
    stride-2 stage fed an odd spatial size.  Its channel counts agree, but the
    first block's conv path (3x3, stride 2, padding 1) turns 13 into 7 while
    the downsample's AvgPool2d(2, 2) turns 13 into 6, so [x += identity]
    fails to broadcast; a 50x50 image reaches such a stage in xresnet18,
    which accepts 224x224. *)
Lemma channel_chaining_counterexample :
  (exists layer g', make_layer 64 BasicBlock 128 1 2 0%nat = Ok (layer, 128) g' /\
     forward_chan layer 64 = Some (128, None) /\
     forward_shape layer [1; 64; 13; 13] = SErr EBroadcast) /\
  (exists m g', XResNet_init BasicBlock [2; 2; 2; 2] 1000 0%nat = Ok m g' /\
     forward_shape m [2; 3; 224; 224] = SOk [2; 1000] /\
     forward_shape m [2; 3; 50; 50] = SErr EBroadcast).
Proof.
  split; do 2 eexists; (split; [run_concrete; reflexivity|]);
    split; vm_compute; reflexivity.
Qed.

(** ** Witnesses *)

Lemma XResNet_forward_order_witness :
  exists m g', XResNet_init BasicBlock [2; 2; 2; 2] 1000 0%nat = Ok m g' /\
  exists c1 c2 c3 mp l1 l2 l3 l4 ap fc,
    m = XResNetM c1 c2 c3 mp l1 l2 l3 l4 ap fc /\
    (exists c h h', conv_bn_relu 3 32 3 2 h = Ok c h' /\ skeleton c1 = skeleton c) /\
    (exists c h h', conv_bn_relu 32 32 3 1 h = Ok c h' /\ skeleton c2 = skeleton c) /\
    (exists c h h', conv 32 64 3 1 false h = Ok c h' /\ skeleton c3 = skeleton c) /\
    mp = MaxPool2d 3 2 1 /\
    ap = AdaptiveAvgPool2d 1 /\
    forall (T : Type) (ops : TensorOps T) (x : T),
      forward m x =
      forward fc (flatten_op (forward ap (forward l4 (forward l3 (forward l2
        (forward l1 (forward mp (forward c3 (forward c2 (forward c1 x)))))))))).
Proof.
  do 2 eexists. split; [run_concrete; reflexivity|].
  eapply (XResNet_forward_order BasicBlock [2; 2; 2; 2] 1000 0%nat). run_concrete. reflexivity.
Defined.

Lemma block_forward_residual_witness :
  (exists blk g', block_new BasicBlock 64 128 2 None 0%nat = Ok blk g' /\
     exists c1 c2 h, blk = BasicBlockM c1 c2 None 2 /\
       bn_relu_conv 64 128 3 2 0%nat = Ok c1 h /\ bn_relu_conv 128 128 3 1 h = Ok c2 g') /\
  (exists blk g', block_new Bottleneck 256 64 2 None 0%nat = Ok blk g' /\
     exists c1 c2 c3 h h', blk = BottleneckM c1 c2 c3 None 2 /\
       bn_relu_conv 256 64 1 1 0%nat = Ok c1 h /\ bn_relu_conv 64 64 3 2 h = Ok c2 h' /\
       bn_relu_conv 64 (64 * 4) 1 1 h' = Ok c3 g') /\
  (exists c g', bn_relu_conv 64 128 3 2 0%nat = Ok c g' /\
     exists w, forall (T : Type) (ops : TensorOps T) x,
       forward c x =
       conv2d_op 64 128 3 2 (3 / 2) w None
         (relu_op (batchnorm2d_op 64 (Const 1) (Const 0) x))).
Proof.
  split; [|split]; do 2 eexists; (split; [run_concrete; reflexivity|]).
  - eapply (proj1 (proj2 (proj2 block_forward_residual))). run_concrete. reflexivity.
  - eapply (proj1 (proj2 (proj2 (proj2 block_forward_residual)))). run_concrete. reflexivity.
  - eapply (proj2 (proj2 (proj2 (proj2 block_forward_residual)))). run_concrete. reflexivity.
Defined.

Lemma channel_chaining_witness :
  (exists layer ni' g', make_layer 64 Bottleneck 64 3 1 0%nat = Ok (layer, ni') g' /\
     ni' = 64 * expansion Bottleneck /\
     (exists b0 rest, layer = Sequential (b0 :: rest) /\
        conv_path_chan b0 64 = Some (ni', None) /\ identity_chan b0 64 = Some (ni', None) /\
        Forall (fun blk => conv_path_chan blk ni' = Some (ni', None) /\
                           identity_chan blk ni' = Some (ni', None)) rest) /\
     forward_chan layer 64 = Some (ni', None)) /\
  (exists m g', XResNet_init Bottleneck [3; 4; 6; 3] 10 0%nat = Ok m g' /\
     (exists c1 c2 c3 mp l1 l2 l3 l4 ap fc,
        m = XResNetM c1 c2 c3 mp l1 l2 l3 l4 ap fc /\
        forward_chan (Sequential [c1; c2; c3; mp]) 3 = Some (64, None) /\
        forward_chan l1 64 = Some (64 * expansion Bottleneck, None) /\
        forward_chan l2 (64 * expansion Bottleneck) = Some (128 * expansion Bottleneck, None) /\
        forward_chan l3 (128 * expansion Bottleneck) = Some (256 * expansion Bottleneck, None) /\
        forward_chan l4 (256 * expansion Bottleneck) = Some (512 * expansion Bottleneck, None)) /\
     forward_chan m 3 = Some (10, Some 1)).
Proof.
  split.
  - do 3 eexists. split; [run_concrete; reflexivity|].
    eapply (proj1 channel_chaining 64 Bottleneck 64 3 1 0%nat). run_concrete. reflexivity.
  - do 2 eexists. split; [run_concrete; reflexivity|].
    eapply (proj2 channel_chaining Bottleneck [3; 4; 6; 3] 10 0%nat). run_concrete. reflexivity.
Defined.

(** ** C4: initialisation *)

Lemma forallb_and (f h : Module -> bool) l :
  forallb f l = true -> forallb h l = true -> forallb (fun x => f x && h x) l = true.
Proof.
  induction l as [|x r IH]; simpl; [reflexivity|].
  intros Hf Hh. apply andb_true_iff in Hf as [-> Hf], Hh as [-> Hh]. simpl. auto.
Qed.

Lemma mapM_forallb (f : Module -> M Module) (Q P : Module -> bool) ms g ms' g' :
  (forall x, In x ms -> Q x = true -> forall h y h', f x h = Ok y h' -> P y = true) ->
  forallb Q ms = true -> mapM f ms g = Ok ms' g' -> forallb P ms' = true.
Proof.
  intros Hf HQ H. apply mapM_inv in H. revert Hf HQ.
  induction H as [|x y l l' (h & h' & Exy) _ IH]; intros Hf HQ; [reflexivity|].
  simpl in HQ |- *. apply andb_true_iff in HQ as [Hx Hl].
  rewrite (Hf x (or_introl eq_refl) Hx _ _ _ Exy). simpl.
  apply IH; [|exact Hl]. intros z Hz. apply Hf. right. exact Hz.
Qed.

Lemma init_cnn_base :
  forall m g m' g', init_cnn m g = Ok m' g' -> base_ok m' = true.
Proof.
  induction m as [m IH] using Module_size_ind.
  intros g m' g' H.
  destruct m; cbn [init_cnn] in H; unfold draw in H; inv_bind; cbn [base_ok]; try reflexivity.
  - destruct bias; reflexivity.
  - eapply (mapM_forallb _ (fun _ => true)); [|apply forallb_forall; reflexivity|exact E].
    intros x Hx _ h y h' Exy. exact (IH x ltac:(size_tac) _ _ _ Exy).
  - apply optM_inv in E1.
    rewrite (IH m1 ltac:(size_tac) _ _ _ E), (IH m2 ltac:(size_tac) _ _ _ E0).
    destruct downsample as [d|], a1; try contradiction; [|reflexivity].
    destruct E1 as (h & h' & E1). exact (IH d ltac:(size_tac) _ _ _ E1).
  - apply optM_inv in E2.
    rewrite (IH m1 ltac:(size_tac) _ _ _ E), (IH m2 ltac:(size_tac) _ _ _ E0),
      (IH m3 ltac:(size_tac) _ _ _ E1).
    destruct downsample as [d|], a2; try contradiction; [|reflexivity].
    destruct E2 as (h & h' & E2). exact (IH d ltac:(size_tac) _ _ _ E2).
  - cbn [forallb].
    repeat match goal with
           | Hx : init_cnn ?x _ = Ok ?y _ |- context [base_ok ?y] =>
               rewrite (IH x ltac:(size_tac) _ _ _ Hx)
           end.
    reflexivity.
Qed.

Ltac exact_hyp := match goal with H : _ |- _ => exact H end.

Ltac split_andb :=
  repeat match goal with H : _ && _ = true |- _ => apply andb_prop in H; destruct H end.

(* the final conv path of a block, zeroed at index 0, then the downsample *)
Ltac final_path_tac :=
  match goal with
  | Hs : starts_with_bn ?c = true, Ez : (match ?c with _ => _ end) _ = Ok _ _,
    Ed : optM _ ?d _ = Ok ?d' _, IH : forall m', _ -> _ |- _ =>
      destruct c as [| | | | | | | |ms| | |]; try discriminate Hs;
      destruct ms as [|x r]; [discriminate Hs|];
      destruct x as [| |n w b| | | | | | | | |]; try discriminate Hs;
      inv_bind; cbn [post_init] in *; inv_bind;
      cbn [wf base_ok forallb] in *; split_andb;
      apply optM_inv in Ed;
      match goal with
      | Hb0 : is_const 0 b = true, Er : mapM _ r _ = Ok ?r' _ |- _ =>
          rewrite Hb0;
          replace (forallb init_spec r') with true;
          [| symmetry; eapply (mapM_forallb _ (fun x => wf x && base_ok x));
             [| apply (forallb_and wf base_ok); exact_hyp | exact Er];
             intros y Hy Hy' h y' h' Ey; apply andb_prop in Hy' as [Hyw Hyb];
             refine (IH y _ _ _ _ Hyw Hyb Ey);
             pose proof (msize_in y (BatchNorm2d n w b :: r) (or_intror Hy)); simpl in *; lia]
      end;
      destruct d as [d|], d'; try contradiction; [|reflexivity];
      destruct Ed as (h & h' & Ed);
      apply (IH d ltac:(size_tac) _ _ _ ltac:(exact_hyp) ltac:(exact_hyp) Ed)
  end.

Lemma post_init_spec :
  forall m g m' g', wf m = true -> base_ok m = true ->
  post_init false m g = Ok m' g' -> init_spec m' = true.
Proof.
  induction m as [m IH] using Module_size_ind.
  intros g m' g' Hw Hb H.
  destruct m; cbn [post_init] in H; unfold draw in H; inv_bind; cbn [init_spec];
    try reflexivity; try exact Hb.
  - cbn [wf base_ok] in Hw, Hb.
    eapply (mapM_forallb _ (fun x => wf x && base_ok x));
      [| apply (forallb_and wf base_ok); exact_hyp | exact E].
    intros x Hx Hx' h y h' Exy. apply andb_prop in Hx' as [Hxw Hxb].
    exact (IH x ltac:(size_tac) _ _ _ Hxw Hxb Exy).
  - cbn [wf base_ok] in Hw, Hb. split_andb.
    rewrite (IH m1 ltac:(size_tac) _ _ _ ltac:(exact_hyp) ltac:(exact_hyp) E0).
    final_path_tac.
  - cbn [wf base_ok] in Hw, Hb. split_andb.
    rewrite (IH m1 ltac:(size_tac) _ _ _ ltac:(exact_hyp) ltac:(exact_hyp) E0),
      (IH m2 ltac:(size_tac) _ _ _ ltac:(exact_hyp) ltac:(exact_hyp) E1).
    final_path_tac.
  - cbn [wf base_ok forallb] in Hw, Hb. split_andb. cbn [forallb].
    repeat match goal with
           | Hx : post_init false ?x _ = Ok ?y _, Hxw : wf ?x = true,
             Hxb : base_ok ?x = true |- context [init_spec ?y] =>
               rewrite (IH x ltac:(size_tac) _ _ _ Hxw Hxb Hx)
           end.
    reflexivity.
Qed.

(** C4: after XResNet.__init__, every Conv2d weight is Kaiming-normal and
    every Conv2d bias is 0 or absent; every BatchNorm2d has weight 1 and bias
    0, except the one at index 0 of each block's final conv path (conv2 of a
    BasicBlock, conv3 of a Bottleneck), which is a BatchNorm2d (not a
    convolution) with weight 0 and bias 0; every Linear weight is drawn from
    N(0, 0.01). *)
Theorem XResNet_init_spec block layers nc g m g' :
  XResNet_init block layers nc g = Ok m g' -> init_spec m = true.
Proof.
  intros H. apply XResNet_init_inv in H.
  destruct H as (n0 & n1 & n2 & n3 & l1 & l2 & l3 & l4 & ni1 & ni2 & ni3 & ni4 &
                 h1 & h2 & h3 & h4 & lin & h5 & m1 & h6 & _ & _ & _ & _ &
                 E1 & E2 & E3 & E4 & El & Ei & Ep).
  eapply post_init_spec; [| eapply init_cnn_base; exact Ei | exact Ep].
  rewrite <- wf_skeleton, (init_cnn_skeleton _ _ _ _ Ei), wf_skeleton.
  unfold nnLinear in El. destruct (_ || _); inv_bind.
  cbn [wf forallb].
  rewrite (make_layer_wf _ _ _ _ _ _ _ _ _ E1), (make_layer_wf _ _ _ _ _ _ _ _ _ E2),
    (make_layer_wf _ _ _ _ _ _ _ _ _ E3), (make_layer_wf _ _ _ _ _ _ _ _ _ E4).
  reflexivity.
Qed.

Lemma XResNet_init_spec_witness :
  exists m g', XResNet_init Bottleneck [3; 4; 6; 3] 10 0%nat = Ok m g' /\ init_spec m = true.
Proof.
  do 2 eexists. split; [run_concrete; reflexivity|].
  eapply (XResNet_init_spec Bottleneck [3; 4; 6; 3] 10 0%nat). run_concrete. reflexivity.
Defined.

(** ** Success of construction *)

Lemma bind_ok_ex {A B} (c : M A) (k : A -> M B) g :
  (exists a g1, c g = Ok a g1) -> (forall a g1, exists b g2, k a g1 = Ok b g2) ->
  exists b g', bind c k g = Ok b g'.
Proof.
  intros (a & g1 & Ec) Hk. destruct (Hk a g1) as (b & g2 & Ek).
  exists b, g2. unfold bind. rewrite Ec. exact Ek.
Qed.

Ltac ok_steps sub :=
  repeat match goal with
  | |- exists _ _, bind _ _ _ = Ok _ _ => apply bind_ok_ex; [| intros ? ?]
  | |- exists _ _, ret _ _ = Ok _ _ => eexists; eexists; reflexivity
  | |- _ => solve [sub]
  end.

Lemma init_cnn_ok : forall m g, exists m' g', init_cnn m g = Ok m' g'.
Proof.
  induction m as [m IH] using Module_size_ind. intros g.
  destruct m; cbn [init_cnn];
    try (destruct downsample as [d|]; cbn [optM]);
    ok_steps ltac:(first
      [ eexists; eexists; reflexivity
      | apply IH; size_tac
      | apply mapM_ok; intros x Hx h; apply IH; size_tac ]).
Qed.

Ltac wf_elem :=
  match goal with
  | Hf : forallb wf ?l = true, Hy : In ?y ?l |- wf ?y = true =>
      exact (proj1 (forallb_forall wf l) Hf y Hy)
  end.

Ltac size_elem :=
  match goal with
  | Hy : In ?y ?r |- (msize ?y < msize (_ _ (Sequential (?x :: ?r)) _ _))%nat =>
      pose proof (msize_in y (x :: r) (or_intror Hy)); simpl in *; lia
  | Hy : In ?y ?r |- (msize ?y < msize (_ _ _ (Sequential (?x :: ?r)) _ _))%nat =>
      pose proof (msize_in y (x :: r) (or_intror Hy)); simpl in *; lia
  | _ => size_tac
  end.

Lemma post_init_ok :
  forall m, wf m = true -> forall z g, exists m' g', post_init z m g = Ok m' g'.
Proof.
  induction m as [m IH] using Module_size_ind. intros Hw z g.
  destruct m; cbn [post_init]; cbn [wf forallb] in Hw; split_andb;
    try match goal with
        | Hs : starts_with_bn ?c = true |- _ =>
            destruct c as [| | | | | | | |[|[| |n w b| | | | | | | | |] r]| | |];
              try discriminate Hs;
            cbn [first_weight_check post_init wf forallb] in *; split_andb
        end;
    try (destruct downsample as [d|]; cbn [optM opt_all] in *);
    ok_steps ltac:(first
      [ eexists; eexists; reflexivity
      | apply IH; [size_elem | exact_hyp]
      | apply mapM_ok; intros y Hy h; apply IH; [size_elem | wf_elem] ]).
Qed.

Lemma bind_ok_dep {A B} (c : M A) (k : A -> M B) g a g1 :
  c g = Ok a g1 -> (exists b g2, k a g1 = Ok b g2) -> exists b g', bind c k g = Ok b g'.
Proof. intros Ec (b & g2 & Ek). exists b, g2. unfold bind. rewrite Ec. exact Ek. Qed.

Ltac ok_then E := eapply bind_ok_dep; [E|]; cbv beta iota.

Lemma XResNet_init_ok block layers nc g :
  (4 <= length layers)%nat -> 0 <= nc -> exists m g', XResNet_init block layers nc g = Ok m g'.
Proof.
  intros Hl Hnc. pose proof (expansion_pos block) as Hp.
  destruct layers as [|n0 [|n1 [|n2 [|n3 rest]]]]; simpl in Hl; try lia.
  unfold XResNet_init.
  ok_then ltac:(rewrite conv_bn_relu_eq; reflexivity).
  ok_then ltac:(rewrite conv_bn_relu_eq; reflexivity).
  ok_then ltac:(rewrite conv_eq; reflexivity).
  ok_then ltac:(reflexivity).
  destruct (make_layer_ok 64 block 64 n0 1 (S (S (S g)))) as (l1 & h1 & E1); try lia.
  ok_then ltac:(exact E1). ok_then ltac:(reflexivity).
  destruct (make_layer_ok (64 * expansion block) block 128 n1 2 h1) as (l2 & h2 & E2); try lia.
  ok_then ltac:(exact E2). ok_then ltac:(reflexivity).
  destruct (make_layer_ok (128 * expansion block) block 256 n2 2 h2) as (l3 & h3 & E3); try lia.
  ok_then ltac:(exact E3). ok_then ltac:(reflexivity).
  destruct (make_layer_ok (256 * expansion block) block 512 n3 2 h3) as (l4 & h4 & E4); try lia.
  ok_then ltac:(exact E4).
  ok_then ltac:(unfold nnBatchNorm1d;
    replace (512 * expansion block <? 0) with false by (symmetry; apply Z.ltb_ge; lia);
    reflexivity).
  ok_then ltac:(unfold nnLinear;
    replace ((512 * expansion block <? 0) || (nc <? 0)) with false
      by (symmetry; apply orb_false_iff; split; apply Z.ltb_ge; lia);
    reflexivity).
  match goal with |- exists _ _, bind (init_cnn ?M0) _ ?h = _ =>
    destruct (init_cnn_ok M0 h) as (m1 & h6 & Ei)
  end.
  ok_then ltac:(exact Ei).
  apply post_init_ok.
  rewrite <- wf_skeleton, (init_cnn_skeleton _ _ _ _ Ei), wf_skeleton.
  cbn [wf forallb].
  rewrite (make_layer_wf _ _ _ _ _ _ _ _ _ E1), (make_layer_wf _ _ _ _ _ _ _ _ _ E2),
    (make_layer_wf _ _ _ _ _ _ _ _ _ E3), (make_layer_wf _ _ _ _ _ _ _ _ _ E4).
  reflexivity.
Qed.

(** ** C7 and C8: the pretrained constructors *)

(** C7: for any loaders [torch.load] and [load_state_dict] and any
    num_classes >= 0, xresnet18, xresnet101 and xresnet152 with
    pretrained=True raise KeyError (their names are not keys of model_urls),
    whatever the loaders do, so no weights are loaded; with pretrained=False
    all five constructors return a model. *)
Theorem pretrained_missing_urls :
  (forall StateDict torch_load load_state_dict nc g, 0 <= nc ->
     xresnet18 StateDict torch_load load_state_dict true nc g = Raise KeyError /\
     xresnet101 StateDict torch_load load_state_dict true nc g = Raise KeyError /\
     xresnet152 StateDict torch_load load_state_dict true nc g = Raise KeyError) /\
  (forall StateDict torch_load load_state_dict nc g, 0 <= nc ->
     (exists m g', xresnet18 StateDict torch_load load_state_dict false nc g = Ok m g') /\
     (exists m g', xresnet34 StateDict torch_load load_state_dict false nc g = Ok m g') /\
     (exists m g', xresnet50 StateDict torch_load load_state_dict false nc g = Ok m g') /\
     (exists m g', xresnet101 StateDict torch_load load_state_dict false nc g = Ok m g') /\
     (exists m g', xresnet152 StateDict torch_load load_state_dict false nc g = Ok m g')).
Proof.
  split; intros StateDict torch_load load_state_dict nc g Hnc;
    unfold xresnet18, xresnet34, xresnet50, xresnet101, xresnet152, xresnet.
  - repeat split; unfold bind at 1;
      match goal with |- context [XResNet_init ?b ?l nc g] =>
        destruct (XResNet_init_ok b l nc g) as (m & g' & E); [simpl; lia | exact Hnc |];
        rewrite E; reflexivity
      end.
  - repeat split; unfold bind;
      match goal with |- context [XResNet_init ?b ?l nc g] =>
        destruct (XResNet_init_ok b l nc g) as (m & g' & E); [simpl; lia | exact Hnc |];
        rewrite E; eexists; eexists; reflexivity
      end.
Qed.

(** C8: xresnet(block, n_layers, name, pre) first runs XResNet(block,
    n_layers, num_classes) and propagates its exception; with pre false it
    returns exactly that model and never calls the loaders; with pre true it
    calls load_state_dict(model, torch.load(model_urls[name])), and raises
    KeyError when name is not a key of model_urls. *)
Theorem xresnet_pre StateDict torch_load load_state_dict block n_layers name nc g :
  xresnet StateDict torch_load load_state_dict block n_layers name false nc g =
    XResNet_init block n_layers nc g /\
  (forall m g1, XResNet_init block n_layers nc g = Ok m g1 ->
     (forall url, In (name, url) model_urls ->
        xresnet StateDict torch_load load_state_dict block n_layers name true nc g =
        (sd <- torch_load url;; load_state_dict m sd) g1) /\
     (~ In name (map fst model_urls) ->
        xresnet StateDict torch_load load_state_dict block n_layers name true nc g =
        Raise KeyError)) /\
  (forall pre e, XResNet_init block n_layers nc g = Raise e ->
     xresnet StateDict torch_load load_state_dict block n_layers name pre nc g = Raise e).
Proof.
  unfold xresnet. split; [|split].
  - unfold bind. destruct (XResNet_init block n_layers nc g); reflexivity.
  - intros m g1 E. split.
    + intros url [H | [H | []]]; injection H; intros <- <-;
        unfold bind at 1; rewrite E; reflexivity.
    + intros Hn. unfold bind at 1. rewrite E. unfold bind at 1.
      replace (dict_getitem model_urls name g1) with (@Raise string KeyError); [reflexivity|].
      simpl. destruct (String.eqb name "xresnet34") eqn:E1.
      { apply String.eqb_eq in E1. subst. simpl in Hn. tauto. }
      destruct (String.eqb name "xresnet50") eqn:E2.
      { apply String.eqb_eq in E2. subst. simpl in Hn. tauto. }
      reflexivity.
  - intros pre e E. unfold bind at 1. rewrite E. reflexivity.
Qed.

Lemma pretrained_missing_urls_witness :
  (xresnet18 unit (fun _ => @ret unit tt) (fun m _ => ret m) true 1000 0%nat = Raise KeyError /\
   xresnet101 unit (fun _ => @ret unit tt) (fun m _ => ret m) true 1000 0%nat = Raise KeyError /\
   xresnet152 unit (fun _ => @ret unit tt) (fun m _ => ret m) true 1000 0%nat = Raise KeyError) /\
  ((exists m g', xresnet18 unit (fun _ => @ret unit tt) (fun m _ => ret m) false 1000 0%nat = Ok m g') /\
   (exists m g', xresnet34 unit (fun _ => @ret unit tt) (fun m _ => ret m) false 1000 0%nat = Ok m g') /\
   (exists m g', xresnet50 unit (fun _ => @ret unit tt) (fun m _ => ret m) false 1000 0%nat = Ok m g') /\
   (exists m g', xresnet101 unit (fun _ => @ret unit tt) (fun m _ => ret m) false 1000 0%nat = Ok m g') /\
   (exists m g', xresnet152 unit (fun _ => @ret unit tt) (fun m _ => ret m) false 1000 0%nat = Ok m g')).
Proof.
  split.
  - apply (proj1 pretrained_missing_urls unit (fun _ => @ret unit tt) (fun m _ => ret m) 1000 0%nat).
    lia.
  - apply (proj2 pretrained_missing_urls unit (fun _ => @ret unit tt) (fun m _ => ret m) 1000 0%nat).
    lia.
Defined.

Lemma xresnet_pre_witness :
  (exists m g1, XResNet_init BasicBlock [3; 4; 6; 3] 10 0%nat = Ok m g1 /\
     (forall url, In ("xresnet34"%string, url) model_urls ->
        xresnet unit (fun _ => @ret unit tt) (fun m _ => ret m) BasicBlock [3; 4; 6; 3]
          "xresnet34" true 10 0%nat =
        (sd <- (fun _ => @ret unit tt) url;; (fun m _ => ret m) m sd) g1) /\
     (~ In "xresnet34"%string (map fst model_urls) ->
        xresnet unit (fun _ => @ret unit tt) (fun m _ => ret m) BasicBlock [3; 4; 6; 3]
          "xresnet34" true 10 0%nat = Raise KeyError)) /\
  (exists e, XResNet_init BasicBlock [3; 4; 6; 3] (-1) 0%nat = Raise e /\
     xresnet unit (fun _ => @ret unit tt) (fun m _ => ret m) BasicBlock [3; 4; 6; 3]
       "xresnet34" true (-1) 0%nat = Raise e).
Proof.
  split.
  - do 2 eexists. split; [run_concrete; reflexivity|].
    eapply (proj1 (proj2 (xresnet_pre unit (fun _ => @ret unit tt) (fun m _ => ret m)
                             BasicBlock [3; 4; 6; 3] "xresnet34" 10 0%nat))).
    run_concrete. reflexivity.
  - eexists. split; [run_concrete; reflexivity|].
    eapply (proj2 (proj2 (xresnet_pre unit (fun _ => @ret unit tt) (fun m _ => ret m)
                             BasicBlock [3; 4; 6; 3] "xresnet34" (-1) 0%nat))).
    run_concrete. reflexivity.
Defined.

(** ** C10: construction does not depend on the generator state *)

Section AgreeRules.
Context {A B : Type} `{Erasable A} `{Erasable B}.

Lemma agree_ret (a1 a2 : A) : er a1 = er a2 -> Agree (ret a1) (ret a2).
Proof. intros Ha g1 g2. cbn. rewrite Ha. reflexivity. Qed.

Lemma agree_raise e : Agree (@raise A e) (raise e).
Proof. intros g1 g2. reflexivity. Qed.

Lemma agree_bind (c1 c2 : M A) (k1 k2 : A -> M B) :
  Agree c1 c2 -> (forall a1 a2, er a1 = er a2 -> Agree (k1 a1) (k2 a2)) ->
  Agree (bind c1 k1) (bind c2 k2).
Proof.
  intros Hc Hk g1 g2. specialize (Hc g1 g2). unfold bind.
  destruct (c1 g1) as [a1 h1|e1], (c2 g2) as [a2 h2|e2]; cbn in Hc;
    try discriminate.
  - injection Hc as Ha. apply Hk. exact Ha.
  - injection Hc as ->. reflexivity.
Qed.
End AgreeRules.

Lemma agree_draw d : Agree (draw d) (draw d).
Proof. intros g1 g2. reflexivity. Qed.

Ltac er_norm :=
  cbv [er erasable_Module erasable_Param erasable_list erasable_option erasable_prod
       erasable_Z erasable_unit erase] in *;
  cbn [map_params map option_map] in *.

Lemma agree_mapM {A B} `{Erasable A} `{Erasable B} (f1 f2 : A -> M B) l1 l2 :
  (forall x1 x2, In x1 l1 -> er x1 = er x2 -> Agree (f1 x1) (f2 x2)) ->
  er l1 = er l2 -> Agree (mapM f1 l1) (mapM f2 l2).
Proof.
  revert l2. induction l1 as [|x1 r1 IH]; intros [|x2 r2] Hf Hl; cbn in Hl;
    try discriminate; cbn [mapM].
  - apply agree_ret. reflexivity.
  - injection Hl as Hx Hr.
    apply agree_bind; [apply Hf; [left; reflexivity | exact Hx] |]. intros y1 y2 Hy.
    apply agree_bind; [apply IH; [intros; apply Hf; [right|]; assumption | exact Hr] |].
    intros ys1 ys2 Hys. apply agree_ret. cbn. cbn in Hys. congruence.
Qed.

Lemma agree_optM {A B} `{Erasable A} `{Erasable B} (f1 f2 : A -> M B) o1 o2 :
  (forall x1 x2, o1 = Some x1 -> er x1 = er x2 -> Agree (f1 x1) (f2 x2)) ->
  er o1 = er o2 -> Agree (optM f1 o1) (optM f2 o2).
Proof.
  destruct o1 as [x1|], o2 as [x2|]; intros Hf Ho; cbn in Ho; try discriminate; cbn [optM].
  - injection Ho as Hx. apply agree_bind; [apply Hf; [reflexivity | exact Hx] |].
    intros y1 y2 Hy. apply agree_ret. cbn. congruence.
  - apply agree_ret. reflexivity.
Qed.

Ltac agree_step :=
  match goal with
  | |- Agree (bind _ _) (bind _ _) =>
      apply agree_bind; [| let a1 := fresh "a" in let a2 := fresh "a" in
                          let Ha := fresh "Ha" in intros a1 a2 Ha]
  | |- Agree (draw _) (draw _) => apply agree_draw
  | |- Agree (raise _) (raise _) => apply agree_raise
  | |- Agree (ret _) (ret _) => apply agree_ret
  | |- Agree (mapM _ _) (mapM _ _) => apply agree_mapM
  | |- Agree (optM _ _) (optM _ _) => apply agree_optM
  end.

Lemma init_cnn_agree :
  forall m1 m2, erase m1 = erase m2 -> Agree (init_cnn m1) (init_cnn m2).
Proof.
  induction m1 as [m1 IH] using Module_size_ind. intros m2 Heq.
  destruct m1, m2; unfold erase in Heq; cbn [map_params] in Heq; try discriminate;
    try (injection Heq; intros; subst); cbn [init_cnn];
    try match goal with b : option Param, b' : option Param |- _ =>
          destruct b, b'; cbn in Heq; try discriminate end;
    repeat agree_step;
    try (intros ? ? -> ?; apply IH; [size_tac | assumption]);
    try (intros; apply IH; [size_tac | assumption]);
    try (apply IH; [size_tac | assumption]);
    try (er_norm; congruence).
Qed.

Lemma first_weight_check_agree c1 c2 :
  erase c1 = erase c2 -> Agree (first_weight_check c1) (first_weight_check c2).
Proof.
  intros H. unfold erase in H.
  destruct c1, c2; cbn [map_params] in H; try discriminate; cbn [first_weight_check];
    try apply agree_raise.
  destruct ms as [|x r], ms0 as [|x' r']; cbn [map] in H; try discriminate;
    try apply agree_raise.
  injection H as Hx _.
  destruct x, x'; cbn [map_params] in Hx; try discriminate;
    first [apply agree_raise | apply agree_ret; reflexivity].
Qed.

(* the two final conv paths of erasure-equal blocks *)
Ltac split_final_paths :=
  match goal with
  | |- Agree (post_init _ (BasicBlockM _ ?c _ _)) (post_init _ (BasicBlockM _ ?c' _ _)) =>
      destruct c as [| | | | | | | |[|? ?]| | |], c' as [| | | | | | | |[|? ?]| | |];
      cbn [map_params map] in *; try discriminate
  | |- Agree (post_init _ (BottleneckM _ _ ?c _ _)) (post_init _ (BottleneckM _ _ ?c' _ _)) =>
      destruct c as [| | | | | | | |[|? ?]| | |], c' as [| | | | | | | |[|? ?]| | |];
      cbn [map_params map] in *; try discriminate
  end.

Lemma post_init_agree :
  forall m1 m2, erase m1 = erase m2 -> forall z, Agree (post_init z m1) (post_init z m2).
Proof.
  induction m1 as [m1 IH] using Module_size_ind. intros m2 Heq z.
  destruct m1, m2; unfold erase in Heq; cbn [map_params] in Heq; try discriminate;
    try (injection Heq; intros; subst);
    try split_final_paths;
    try (injection Heq; intros; subst);
    cbn [post_init];
    repeat agree_step.
  all: first
    [ apply first_weight_check_agree; unfold erase; cbn [map_params map]; congruence
    | apply IH; [size_elem | unfold erase; congruence]
    | intros ? ? -> ?; apply IH; [size_tac | er_norm; unfold erase; assumption]
    | intros ? ? ? ?; apply IH; [size_elem | er_norm; unfold erase; assumption]
    | er_norm; destruct z; congruence
    | er_norm; congruence ].
Qed.


Lemma agree_repeatM {A} `{Erasable A} (c1 c2 : M A) n :
  Agree c1 c2 -> Agree (repeatM n c1) (repeatM n c2).
Proof.
  intros Hc. induction n as [|n IH]; cbn [repeatM].
  - apply agree_ret. reflexivity.
  - apply agree_bind; [exact Hc|]. intros x1 x2 Hx.
    apply agree_bind; [exact IH|]. intros l1 l2 Hl.
    apply agree_ret. cbn. cbn in Hl. congruence.
Qed.

Lemma conv_agree ni nf ks s : Agree (conv ni nf ks s false) (conv ni nf ks s false).
Proof. intros g1 g2. rewrite !conv_eq. destruct (neg3 ni nf ks); reflexivity. Qed.

Lemma conv_bn_relu_agree ni nf ks s : Agree (conv_bn_relu ni nf ks s) (conv_bn_relu ni nf ks s).
Proof. intros g1 g2. rewrite !conv_bn_relu_eq. destruct (neg3 ni nf ks); reflexivity. Qed.

Lemma getitem_agree (l : list Z) i : Agree (getitem l i) (getitem l i).
Proof. intros g1 g2. unfold getitem. destruct (nth_error l i); reflexivity. Qed.

Lemma block_new_agree b ni nf s ds1 ds2 :
  er ds1 = er ds2 -> Agree (block_new b ni nf s ds1) (block_new b ni nf s ds2).
Proof.
  intros Hds g1 g2. rewrite !block_new_eq.
  destruct ((ni <? 0) || (nf <? 0)); [reflexivity|].
  cbn [outcome]. f_equal. er_norm.
  destruct b; cbn [block_result map_params brc_result map erase_param]; congruence.
Qed.

Lemma make_layer_agree ni b nf blocks stride :
  Agree (make_layer ni b nf blocks stride) (make_layer ni b nf blocks stride).
Proof.
  unfold make_layer.
  apply agree_bind.
  - destruct (negb (stride =? 1) || negb (ni =? nf * expansion b)).
    + apply agree_bind; [apply conv_agree|]. intros c1 c2 Hc.
      apply agree_bind.
      { unfold nnBatchNorm2d. destruct (nf * expansion b <? 0); repeat agree_step;
          reflexivity. }
      intros bn1 bn2 Hbn. apply agree_ret. er_norm.
      destruct (stride =? 2); cbn [app map map_params]; congruence.
    + apply agree_ret. reflexivity.
  - intros ds1 ds2 Hds. apply agree_bind; [apply block_new_agree; exact Hds|].
    intros b1 b2 Hb. apply agree_bind.
    + apply agree_repeatM. apply block_new_agree. reflexivity.
    + intros r1 r2 Hr. apply agree_ret. er_norm. congruence.
Qed.

Lemma XResNet_init_agree block layers nc :
  Agree (XResNet_init block layers nc) (XResNet_init block layers nc).
Proof.
  unfold XResNet_init. cbv zeta.
  apply agree_bind; [apply conv_bn_relu_agree|]. intros c1 c1' Hc1.
  apply agree_bind; [apply conv_bn_relu_agree|]. intros c2 c2' Hc2.
  apply agree_bind; [apply conv_agree|]. intros c3 c3' Hc3.
  apply agree_bind; [apply getitem_agree|]. intros n0 n0' Hn0. cbv in Hn0. subst n0'.
  apply agree_bind; [apply make_layer_agree|].
  intros [l1 ni1] [l1' ni1'] H1. er_norm. cbn in H1. injection H1 as H1 <-.
  apply agree_bind; [apply getitem_agree|]. intros n1 n1' Hn1. cbv in Hn1. subst n1'.
  apply agree_bind; [apply make_layer_agree|].
  intros [l2 ni2] [l2' ni2'] H2. er_norm. cbn in H2. injection H2 as H2 <-.
  apply agree_bind; [apply getitem_agree|]. intros n2 n2' Hn2. cbv in Hn2. subst n2'.
  apply agree_bind; [apply make_layer_agree|].
  intros [l3 ni3] [l3' ni3'] H3. er_norm. cbn in H3. injection H3 as H3 <-.
  apply agree_bind; [apply getitem_agree|]. intros n3 n3' Hn3. cbv in Hn3. subst n3'.
  apply agree_bind; [apply make_layer_agree|].
  intros [l4 ni4] [l4' ni4'] H4. er_norm. cbn in H4. injection H4 as H4 <-.
  apply agree_bind.
  { unfold nnBatchNorm1d. destruct (512 * expansion block <? 0); repeat agree_step;
      reflexivity. }
  intros bn bn' Hbn.
  apply agree_bind.
  { unfold nnLinear. destruct (_ || _); repeat agree_step; er_norm; congruence. }
  intros lin lin' Hlin.
  apply agree_bind.
  - apply init_cnn_agree. er_norm. unfold erase in *. congruence.
  - intros m m' Hm. apply post_init_agree. exact Hm.
Qed.

(** C10: two runs of XResNet(block, layers, num_classes), from any two states
    of the random generator (the only state construction reads), both raise
    the same exception, or both return models that are equal once the drawn
    samples are forgotten: same module tree, layer types, kernel sizes,
    strides, paddings, channel counts, constants and distributions. *)
Theorem construction_deterministic block layers nc g1 g2 :
  match XResNet_init block layers nc g1, XResNet_init block layers nc g2 with
  | Ok m1 _, Ok m2 _ => erase m1 = erase m2
  | Raise e1, Raise e2 => e1 = e2
  | _, _ => False
  end.
Proof.
  pose proof (XResNet_init_agree block layers nc g1 g2) as H.
  destruct (XResNet_init block layers nc g1), (XResNet_init block layers nc g2);
    cbn [outcome] in H; try discriminate; injection H as H; exact H.
Qed.

(** * Further properties of xresnet.py *)

(** ** Output shapes *)

Lemma forward_shape_skeleton :
  forall m (x : Shape), forward (skeleton m) x = forward m x.
Proof.
  unfold skeleton.
  induction m as [m IH] using Module_size_ind. intros x.
  destruct m; cbn [map_params]; try reflexivity.
  - assert (Hin : forall y, In y ms -> forall x,
               forward (map_params (fun _ => Const 0) y) (x : Shape) = forward y x)
      by (intros y Hy; apply IH; size_tac).
    clear IH. revert x. induction ms as [|y r IHr]; intros x; [reflexivity|].
    cbn [map]. rewrite !forward_seq_cons, Hin by (left; reflexivity).
    apply IHr. intros z Hz. apply Hin. right. exact Hz.
  - cbn [forward]. rewrite !IH by size_tac.
    destruct downsample; cbn [option_map]; [rewrite IH by size_tac|]; reflexivity.
  - cbn [forward]. rewrite !IH by size_tac.
    destruct downsample; cbn [option_map]; [rewrite IH by size_tac|]; reflexivity.
  - cbn [forward]. rewrite !IH by size_tac. reflexivity.
Qed.

Lemma forward_shape_err : forall m e, forward m (SErr e) = SErr e.
Proof.
  induction m as [m IH] using Module_size_ind. intros e.
  destruct m; try reflexivity.
  - assert (Hin : forall y, In y ms -> forall e, forward y (SErr e) = SErr e)
      by (intros y Hy; apply IH; size_tac).
    clear IH. induction ms as [|y r IHr]; [reflexivity|].
    rewrite forward_seq_cons, Hin by (left; reflexivity).
    apply IHr. intros z Hz. apply Hin. right. exact Hz.
  - cbn [forward]. rewrite !IH by size_tac. reflexivity.
  - cbn [forward]. rewrite !IH by size_tac. reflexivity.
  - cbn [forward]. repeat (rewrite IH by size_tac; cbn [flatten_op ShapeOps]). reflexivity.
Qed.

Lemma out_dim_3 s h : 1 <= s -> 1 <= h -> out_dim h 3 s 1 = Some ((h - 1) / s + 1).
Proof.
  intros Hs Hh. unfold out_dim.
  destruct (Z.leb_spec s 0); [lia|].
  replace (h + 2 * 1 - 3) with (h - 1) by lia.
  pose proof (Z.div_pos (h - 1) s ltac:(lia) ltac:(lia)).
  destruct (Z.leb_spec ((h - 1) / s + 1) 0); [lia | reflexivity].
Qed.

Lemma out_dim_1 h : 1 <= h -> out_dim h 1 1 0 = Some h.
Proof.
  intros Hh. unfold out_dim. cbn [Z.leb Z.compare].
  replace ((h + 2 * 0 - 1) / 1 + 1) with h by (rewrite Z.div_1_r; lia).
  destruct (Z.leb_spec h 0); [lia | reflexivity].
Qed.

Lemma out_dim_pool h : 1 <= h -> out_dim h 2 2 0 = if h =? 1 then None else Some (h / 2).
Proof.
  intros Hh. unfold out_dim. cbn [Z.leb Z.compare].
  replace ((h + 2 * 0 - 2) / 2 + 1) with (h / 2) by (Z.div_mod_to_equations; lia).
  destruct (Z.eqb_spec h 1); destruct (Z.leb_spec (h / 2) 0); try reflexivity; Z.div_mod_to_equations; lia.
Qed.

Lemma bcast_rev_refl l : bcast_rev l l = true.
Proof. induction l as [|a r IH]; simpl; [reflexivity|]. rewrite Z.eqb_refl, IH. reflexivity. Qed.

Lemma brc_shape3 ni nf s g n h w : 1 <= s -> 1 <= h -> 1 <= w ->
  forward (brc_result ni nf 3 s g) (SOk [n; ni; h; w]) =
  SOk [n; nf; (h - 1) / s + 1; (w - 1) / s + 1].
Proof.
  intros Hs Hh Hw. unfold brc_result. rewrite !forward_seq_cons.
  cbn -[out_dim]. rewrite Z.eqb_refl. cbn -[out_dim]. unfold check_channels.
  rewrite Z.eqb_refl, out_dim_3, out_dim_3 by assumption. reflexivity.
Qed.

Lemma brc_shape1 ni nf g n h w : 1 <= h -> 1 <= w ->
  forward (brc_result ni nf 1 1 g) (SOk [n; ni; h; w]) = SOk [n; nf; h; w].
Proof.
  intros Hh Hw. unfold brc_result. rewrite !forward_seq_cons.
  cbn -[out_dim]. rewrite Z.eqb_refl. cbn -[out_dim]. unfold check_channels.
  rewrite Z.eqb_refl, out_dim_1, out_dim_1 by assumption. reflexivity.
Qed.

Lemma ds_shape1 ni b nf g n h w : 1 <= h -> 1 <= w ->
  forward (ds_result ni b nf 1 g) (SOk [n; ni; h; w]) = SOk [n; nf * expansion b; h; w].
Proof.
  intros Hh Hw. unfold ds_result. cbn -[out_dim Z.mul]. unfold check_channels.
  rewrite Z.eqb_refl, out_dim_1, out_dim_1 by assumption. cbn -[Z.mul].
  rewrite Z.eqb_refl. reflexivity.
Qed.

Lemma ds_shape2 ni b nf g n h w : 1 <= h -> 1 <= w ->
  forward (ds_result ni b nf 2 g) (SOk [n; ni; h; w]) =
  if (h =? 1) || (w =? 1) then SErr EOutSize else SOk [n; nf * expansion b; h / 2; w / 2].
Proof.
  intros Hh Hw. unfold ds_result. cbn -[out_dim Z.mul].
  rewrite out_dim_pool, out_dim_pool by assumption.
  destruct (Z.eqb_spec h 1), (Z.eqb_spec w 1); try reflexivity.
  cbn -[out_dim Z.mul]. unfold check_channels.
  assert (1 <= h / 2) by (Z.div_mod_to_equations; lia).
  assert (1 <= w / 2) by (Z.div_mod_to_equations; lia).
  rewrite Z.eqb_refl, out_dim_1, out_dim_1 by assumption. cbn -[Z.mul].
  rewrite Z.eqb_refl. reflexivity.
Qed.

Lemma side_1 h : (h - 1) / 1 + 1 = h.
Proof. rewrite Z.div_1_r. lia. Qed.

Lemma block_shape1 b ni nf ds g n h w : 1 <= h -> 1 <= w ->
  (ds = None /\ ni = nf * expansion b) \/ (exists h0, ds = Some (ds_result ni b nf 1 h0)) ->
  forward (block_result b ni nf 1 ds g) (SOk [n; ni; h; w]) = SOk [n; nf * expansion b; h; w].
Proof.
  intros Hh Hw Hds.
  assert (Hid : match ds with None => SOk [n; ni; h; w] | Some d => forward d (SOk [n; ni; h; w]) end
                = SOk [n; nf * expansion b; h; w]).
  { destruct Hds as [[-> ->] | [h0 ->]]; [reflexivity | apply ds_shape1; assumption]. }
  destruct b; cbn [block_result forward].
  - rewrite Hid, brc_shape3, side_1, side_1, brc_shape3, side_1, side_1 by lia.
    cbn [iadd_op ShapeOps]. rewrite Z.mul_1_r, bcast_rev_refl. reflexivity.
  - rewrite Hid, brc_shape1, brc_shape3, side_1, side_1, brc_shape1 by lia.
    cbn [iadd_op ShapeOps]. rewrite bcast_rev_refl. reflexivity.
Qed.

Lemma side_ok_bcast h : 2 <= h -> (h / 2 =? (h - 1) / 2 + 1) || (h / 2 =? 1) = side_ok h.
Proof.
  intros Hh. unfold side_ok.
  destruct (Z.eqb_spec (h / 2) ((h - 1) / 2 + 1)), (Z.eqb_spec (h / 2) 1),
    (Z.eqb_spec (h mod 2) 0), (Z.eqb_spec h 3); try reflexivity;
    exfalso; Z.div_mod_to_equations; lia.
Qed.

Lemma block_shape2 b ni nf h0 g n h w : 1 <= h -> 1 <= w ->
  forward (block_result b ni nf 2 (Some (ds_result ni b nf 2 h0)) g) (SOk [n; ni; h; w]) =
  if side_ok h && side_ok w then SOk [n; nf * expansion b; (h + 1) / 2; (w + 1) / 2]
  else SErr (if (h =? 1) || (w =? 1) then EOutSize else EBroadcast).
Proof.
  intros Hh Hw.
  assert (Hc : forall x, 1 <= x -> 1 <= (x - 1) / 2 + 1)
    by (intros x Hx; pose proof (Z.div_pos (x - 1) 2 ltac:(lia) ltac:(lia)); lia).
  assert (Hp : forall x, (x - 1) / 2 + 1 = (x + 1) / 2)
    by (intros x; Z.div_mod_to_equations; lia).
  assert (Hconv : forward (match b with
                           | BasicBlock => Sequential [brc_result ni nf 3 2 g; brc_result nf nf 3 1 (S g)]
                           | Bottleneck => Sequential [brc_result ni nf 1 1 g; brc_result nf nf 3 2 (S g);
                                                       brc_result nf (nf * 4) 1 1 (S (S g))]
                           end) (SOk [n; ni; h; w])
                  = SOk [n; nf * expansion b; (h - 1) / 2 + 1; (w - 1) / 2 + 1]).
  { destruct b; rewrite !forward_seq_cons.
    - rewrite brc_shape3, brc_shape3, !side_1 by (try apply Hc; lia).
      rewrite Z.mul_1_r. reflexivity.
    - rewrite brc_shape1, brc_shape3, brc_shape1 by (try apply Hc; lia). reflexivity. }
  assert (Hblk : forward (block_result b ni nf 2 (Some (ds_result ni b nf 2 h0)) g) (SOk [n; ni; h; w])
                 = iadd_op (forward (match b with
                           | BasicBlock => Sequential [brc_result ni nf 3 2 g; brc_result nf nf 3 1 (S g)]
                           | Bottleneck => Sequential [brc_result ni nf 1 1 g; brc_result nf nf 3 2 (S g);
                                                       brc_result nf (nf * 4) 1 1 (S (S g))]
                           end) (SOk [n; ni; h; w]))
                           (forward (ds_result ni b nf 2 h0) (SOk [n; ni; h; w]))).
  { destruct b; reflexivity. }
  rewrite Hblk, Hconv, ds_shape2 by assumption. clear Hblk Hconv.
  destruct (Z.eqb_spec h 1) as [->|Hh1].
  { reflexivity. }
  destruct (Z.eqb_spec w 1) as [->|Hw1].
  { rewrite andb_false_r. reflexivity. }
  cbn [orb iadd_op ShapeOps rev app bcast_rev].
  rewrite !Z.eqb_refl, !orb_true_l, side_ok_bcast, side_ok_bcast by lia.
  rewrite !Hp. cbn [andb]. rewrite andb_true_r, andb_comm. reflexivity.
Qed.

Lemma make_layer_struct ni b nf blocks stride g layer ni' g' :
  make_layer ni b nf blocks stride g = Ok (layer, ni') g' ->
  ni' = nf * expansion b /\ 0 <= ni /\ 0 <= nf /\
  exists ds g1 rest,
    ((stride = 1 /\ ni = nf * expansion b) /\ ds = None \/
     ~ (stride = 1 /\ ni = nf * expansion b) /\ ds = Some (ds_result ni b nf stride g)) /\
    layer = Sequential (block_result b ni nf stride ds g1 :: rest) /\
    length rest = Z.to_nat (blocks - 1) /\
    Forall (fun blk => exists h, blk = block_result b (nf * expansion b) nf 1 None h) rest.
Proof.
  intros H. apply make_layer_inv in H.
  destruct H as (-> & Hni & Hnf & ds & g1 & rest & Hds & Er & ->).
  apply repeatM_inv in Er. destruct Er as [Hlen HF].
  split; [reflexivity|]. split; [exact Hni|]. split; [exact Hnf|].
  exists ds, g1, rest. split; [|split; [reflexivity|split; [exact Hlen|]]].
  - destruct Hds as [(? & ? & _) | (? & ? & _)]; tauto.
  - eapply Forall_impl; [|exact HF].
    intros x (h & h' & Ex). rewrite block_new_eq in Ex. destruct (_ || _); inv_bind. eauto.
Qed.

Lemma rest_shape b c nf rest n h w :
  c = nf * expansion b -> 1 <= h -> 1 <= w ->
  Forall (fun blk => exists h, blk = block_result b c nf 1 None h) rest ->
  forward (Sequential rest) (SOk [n; c; h; w]) = SOk [n; c; h; w].
Proof.
  intros Hc Hh Hw HR. induction HR as [|x r (h1 & ->) _ IH]; [reflexivity|].
  rewrite forward_seq_cons, block_shape1 by (auto; left; split; auto).
  rewrite <- Hc. exact IH.
Qed.

Lemma make_layer_shape1 ni b nf blocks g layer ni' g' n h w :
  make_layer ni b nf blocks 1 g = Ok (layer, ni') g' -> 1 <= h -> 1 <= w ->
  forward layer (SOk [n; ni; h; w]) = SOk [n; ni'; h; w].
Proof.
  intros H Hh Hw. apply make_layer_struct in H.
  destruct H as (-> & _ & _ & ds & g1 & rest & Hds & -> & _ & HR).
  assert (Hds' : (ds = None /\ ni = nf * expansion b) \/
                 (exists h0, ds = Some (ds_result ni b nf 1 h0)))
    by (destruct Hds as [((_ & ?) & ?) | (_ & ?)]; [left | right; eexists]; eauto).
  rewrite forward_seq_cons, block_shape1 by assumption.
  apply (rest_shape b _ nf); auto.
Qed.

Lemma make_layer_shape2 ni b nf blocks g layer ni' g' n h w :
  make_layer ni b nf blocks 2 g = Ok (layer, ni') g' -> 1 <= h -> 1 <= w ->
  forward layer (SOk [n; ni; h; w]) =
  if side_ok h && side_ok w then SOk [n; ni'; (h + 1) / 2; (w + 1) / 2]
  else SErr (if (h =? 1) || (w =? 1) then EOutSize else EBroadcast).
Proof.
  intros H Hh Hw. apply make_layer_struct in H.
  destruct H as (-> & _ & _ & ds & g1 & rest & Hds & -> & _ & HR).
  destruct Hds as [((? & _) & _) | (_ & ->)]; [discriminate|].
  rewrite forward_seq_cons, block_shape2 by assumption.
  destruct (side_ok h && side_ok w).
  - apply (rest_shape b _ nf); auto; Z.div_mod_to_equations; lia.
  - apply forward_shape_err.
Qed.

Lemma cbr_shape3 ni nf s g n h w : 1 <= s -> 1 <= h -> 1 <= w ->
  forward (cbr_result ni nf 3 s g) (SOk [n; ni; h; w]) =
  SOk [n; nf; (h - 1) / s + 1; (w - 1) / s + 1].
Proof.
  intros Hs Hh Hw. unfold cbr_result. rewrite !forward_seq_cons.
  cbn -[out_dim]. unfold check_channels.
  rewrite Z.eqb_refl, out_dim_3, out_dim_3 by assumption. cbn. rewrite Z.eqb_refl. reflexivity.
Qed.

Lemma XResNet_skeleton block layers nc g m g' :
  XResNet_init block layers nc g = Ok m g' ->
  exists n0 n1 n2 n3 l1 l2 l3 l4 ni1 ni2 ni3 ni4 h1 h2 h3 h4 lin h5,
    nth_error layers 0 = Some n0 /\ nth_error layers 1 = Some n1 /\
    nth_error layers 2 = Some n2 /\ nth_error layers 3 = Some n3 /\
    make_layer 64 block 64 n0 1 (3 + g)%nat = Ok (l1, ni1) h1 /\
    make_layer ni1 block 128 n1 2 h1 = Ok (l2, ni2) h2 /\
    make_layer ni2 block 256 n2 2 h2 = Ok (l3, ni3) h3 /\
    make_layer ni3 block 512 n3 2 h3 = Ok (l4, ni4) h4 /\
    nnLinear (512 * expansion block) nc h4 = Ok lin h5 /\
    skeleton m =
    skeleton (XResNetM (cbr_result 3 32 3 2 g) (cbr_result 32 32 3 1 (S g))
                (Conv2d 32 64 3 1 1 (Drawn DefaultUniform (S (S g))) None)
                (MaxPool2d 3 2 1) l1 l2 l3 l4 (AdaptiveAvgPool2d 1)
                (Sequential [ReLU; BatchNorm1d (512 * expansion block) (Const 1) (Const 0); lin])).
Proof.
  intros H. apply XResNet_init_inv in H.
  destruct H as (n0 & n1 & n2 & n3 & l1 & l2 & l3 & l4 & ni1 & ni2 & ni3 & ni4 &
                 h1 & h2 & h3 & h4 & lin & h5 & m1 & h6 & H0 & H1 & H2 & H3 &
                 E1 & E2 & E3 & E4 & El & Ei & Ep).
  exists n0, n1, n2, n3, l1, l2, l3, l4, ni1, ni2, ni3, ni4, h1, h2, h3, h4, lin, h5.
  repeat (split; [assumption|]).
  rewrite (post_init_skeleton _ _ _ _ _ Ep). exact (init_cnn_skeleton _ _ _ _ Ei).
Qed.

Lemma side_ok_even k : side_ok (2 * k) = true.
Proof. unfold side_ok. rewrite Z.mul_comm, Z.mod_mul by lia. reflexivity. Qed.

(** X8: in evaluation mode, every model built by XResNet.__init__ maps an
    input [n, 3, 32a, 32b] with n, a, b >= 1 to an output [n, num_classes]. *)
Theorem XResNet_forward_shape block layers nc g m g' n a b :
  XResNet_init block layers nc g = Ok m g' -> 1 <= n -> 1 <= a -> 1 <= b ->
  forward_shape m [n; 3; 32 * a; 32 * b] = SOk [n; nc].
Proof.
  intros H Hn Ha Hb. apply XResNet_skeleton in H.
  destruct H as (n0 & n1 & n2 & n3 & l1 & l2 & l3 & l4 & ni1 & ni2 & ni3 & ni4 &
                 h1 & h2 & h3 & h4 & lin & h5 & _ & _ & _ & _ & E1 & E2 & E3 & E4 & El & Hs).
  pose proof (make_layer_inv _ _ _ _ _ _ _ _ _ E4) as [Hni4 _].
  unfold forward_shape. rewrite <- forward_shape_skeleton, Hs, forward_shape_skeleton.
  unfold nnLinear in El. destruct (_ || _); [discriminate|].
  cbv [bind draw ret] in El. injection El as <- _.
  cbn [forward].
  rewrite cbr_shape3 by lia.
  replace ((32 * a - 1) / 2 + 1) with (16 * a) by (Z.div_mod_to_equations; lia).
  replace ((32 * b - 1) / 2 + 1) with (16 * b) by (Z.div_mod_to_equations; lia).
  rewrite cbr_shape3, !side_1 by lia.
  cbn [conv2d_op maxpool2d_op ShapeOps spatial]. unfold check_channels.
  rewrite Z.eqb_refl, !out_dim_3 by lia. rewrite !side_1.
  cbn [spatial]. rewrite !out_dim_3 by lia.
  replace ((16 * a - 1) / 2 + 1) with (8 * a) by (Z.div_mod_to_equations; lia).
  replace ((16 * b - 1) / 2 + 1) with (8 * b) by (Z.div_mod_to_equations; lia).
  rewrite (make_layer_shape1 _ _ _ _ _ _ _ _ _ _ _ E1) by lia.
  rewrite (make_layer_shape2 _ _ _ _ _ _ _ _ _ _ _ E2) by lia.
  replace (8 * a) with (2 * (4 * a)) by lia. replace (8 * b) with (2 * (4 * b)) by lia.
  rewrite !side_ok_even. cbn [andb].
  replace ((2 * (4 * a) + 1) / 2) with (4 * a) by (Z.div_mod_to_equations; lia).
  replace ((2 * (4 * b) + 1) / 2) with (4 * b) by (Z.div_mod_to_equations; lia).
  rewrite (make_layer_shape2 _ _ _ _ _ _ _ _ _ _ _ E3) by lia.
  replace (4 * a) with (2 * (2 * a)) by lia. replace (4 * b) with (2 * (2 * b)) by lia.
  rewrite !side_ok_even. cbn [andb].
  replace ((2 * (2 * a) + 1) / 2) with (2 * a) by (Z.div_mod_to_equations; lia).
  replace ((2 * (2 * b) + 1) / 2) with (2 * b) by (Z.div_mod_to_equations; lia).
  rewrite (make_layer_shape2 _ _ _ _ _ _ _ _ _ _ _ E4) by lia.
  rewrite !side_ok_even. cbn [andb].
  cbn -[Z.mul]. destruct (Z.eqb_spec n 0) as [->|_]; [lia|].
  rewrite Hni4, !Z.mul_1_r, Z.eqb_refl. cbn -[Z.mul].
  rewrite Z.eqb_refl. reflexivity.
Qed.

(** ** Errors and success of XResNet.__init__ *)

Lemma bind_step {A B} (c : M A) (k : A -> M B) g a g1 :
  c g = Ok a g1 -> bind c k g = k a g1.
Proof. intros E. unfold bind. rewrite E. reflexivity. Qed.

Lemma bind_raise {A B} (c : M A) (k : A -> M B) g e :
  c g = Raise e -> bind c k g = Raise e.
Proof. intros E. unfold bind. rewrite E. reflexivity. Qed.

Ltac ok_rewrite E := rewrite (bind_step _ _ _ _ _ E); cbv beta iota zeta.

Ltac getitem_step :=
  match goal with
  | |- bind (getitem ?l ?i) ?k ?h = _ =>
      first [ rewrite (bind_raise (getitem l i) k h IndexError eq_refl); reflexivity
            | rewrite (bind_step (getitem l i) k h _ h eq_refl); cbv beta iota zeta ]
  end.

Ltac layer_step :=
  match goal with
  | |- bind (make_layer ?ni ?b ?nf ?n ?s) _ ?h = _ =>
      let l := fresh "l" in let h' := fresh "h" in let E := fresh "E" in
      destruct (make_layer_ok ni b nf n s h ltac:(lia) ltac:(lia)) as (l & h' & E);
      ok_rewrite E
  end.

Lemma XResNet_init_stem block layers nc g :
  XResNet_init block layers nc g =
  bind (getitem layers 0) (fun n0 =>
  bind (make_layer 64 block 64 n0 1) (fun x => match x with (l1, ni) =>
  bind (getitem layers 1) (fun n1 =>
  bind (make_layer ni block 128 n1 2) (fun x => match x with (l2, ni) =>
  bind (getitem layers 2) (fun n2 =>
  bind (make_layer ni block 256 n2 2) (fun x => match x with (l3, ni) =>
  bind (getitem layers 3) (fun n3 =>
  bind (make_layer ni block 512 n3 2) (fun x => match x with (l4, _) =>
  bind (nnBatchNorm1d (512 * expansion block)) (fun bn =>
  bind (nnLinear (512 * expansion block) nc) (fun lin =>
  bind (init_cnn (XResNetM (cbr_result 3 32 3 2 g) (cbr_result 32 32 3 1 (S g))
                   (Conv2d 32 64 3 1 1 (Drawn DefaultUniform (S (S g))) None)
                   (MaxPool2d 3 2 1) l1 l2 l3 l4 (AdaptiveAvgPool2d 1)
                   (Sequential [ReLU; bn; lin]))) (fun m =>
  post_init false m))) end)) end)) end)) end)) (3 + g)%nat.
Proof.
  unfold XResNet_init.
  ok_rewrite (conv_bn_relu_eq 3 32 3 2 g).
  ok_rewrite (conv_bn_relu_eq 32 32 3 1 (S g)).
  ok_rewrite (conv_eq 32 64 3 1 (S (S g))).
  reflexivity.
Qed.

Lemma nnBatchNorm1d_ok block h :
  nnBatchNorm1d (512 * expansion block) h =
  Ok (BatchNorm1d (512 * expansion block) (Const 1) (Const 0)) h.
Proof.
  unfold nnBatchNorm1d. pose proof (expansion_pos block).
  replace (512 * expansion block <? 0) with false by (symmetry; apply Z.ltb_ge; lia).
  reflexivity.
Qed.

(** X1: XResNet.__init__ reads layers[0] to layers[3]; when [layers] has fewer
    than four entries the subscript raises IndexError, whatever the block
    class, num_classes and generator state. *)
Theorem XResNet_init_IndexError block layers nc g :
  (length layers < 4)%nat -> XResNet_init block layers nc g = Raise IndexError.
Proof.
  intros Hl. pose proof (expansion_pos block).
  rewrite XResNet_init_stem.
  destruct layers as [|n0 [|n1 [|n2 [|n3 r]]]]; simpl in Hl; try lia;
    repeat (getitem_step || layer_step).
Qed.

(** X2: with at least four entries in [layers] but num_classes < 0,
    construction raises RuntimeError (nn.Linear(512*expansion, num_classes)
    allocates a weight of negative size). *)
Theorem XResNet_init_RuntimeError block layers nc g :
  (4 <= length layers)%nat -> nc < 0 -> XResNet_init block layers nc g = Raise RuntimeError.
Proof.
  intros Hl Hnc. pose proof (expansion_pos block).
  rewrite XResNet_init_stem.
  destruct layers as [|n0 [|n1 [|n2 [|n3 r]]]]; simpl in Hl; try lia.
  repeat (getitem_step || layer_step).
  match goal with |- bind _ _ ?h = _ => ok_rewrite (nnBatchNorm1d_ok block h) end.
  apply bind_raise.
  unfold nnLinear.
  replace ((512 * expansion block <? 0) || (nc <? 0)) with true
    by (symmetry; apply orb_true_iff; right; apply Z.ltb_lt; lia).
  reflexivity.
Qed.

(** X3: XResNet(block, layers, num_classes) returns a model exactly when
    [layers] has at least four entries and num_classes >= 0; no block count
    (zero or negative included) makes it fail. *)
Theorem XResNet_init_succeeds_iff block layers nc g :
  (exists m g', XResNet_init block layers nc g = Ok m g') <->
  (4 <= length layers)%nat /\ 0 <= nc.
Proof.
  split.
  - intros (m & g' & H). apply XResNet_init_inv in H.
    destruct H as (n0 & n1 & n2 & n3 & l1 & l2 & l3 & l4 & ni1 & ni2 & ni3 & ni4 &
                   h1 & h2 & h3 & h4 & lin & h5 & m1 & h6 & _ & _ & _ & H3 & _ & _ & _ & _ &
                   El & _ & _).
    split.
    + apply nth_error_Some. rewrite H3. discriminate.
    + unfold nnLinear in El. destruct ((512 * expansion block <? 0) || (nc <? 0)) eqn:En;
        [discriminate|]. apply orb_false_iff in En. apply Z.ltb_ge. tauto.
  - intros [Hl Hnc]. apply XResNet_init_ok; assumption.
Qed.

Lemma getitem_firstn {A} (l : list A) i : (i < 4)%nat -> getitem l i = getitem (firstn 4 l) i.
Proof. intros Hi. unfold getitem. rewrite nth_error_firstn. destruct (Nat.ltb_spec i 4); [reflexivity | lia]. Qed.

(** X4: only the first four entries of [layers] are read: two lists that agree
    on them give the same outcome (model and generator state, or exception). *)
Theorem XResNet_init_first_four block l1 l2 nc g :
  firstn 4 l1 = firstn 4 l2 -> XResNet_init block l1 nc g = XResNet_init block l2 nc g.
Proof.
  intros H. unfold XResNet_init.
  rewrite (getitem_firstn l1 0), (getitem_firstn l1 1), (getitem_firstn l1 2),
    (getitem_firstn l1 3), H, <- (getitem_firstn l2 0), <- (getitem_firstn l2 1),
    <- (getitem_firstn l2 2), <- (getitem_firstn l2 3) by lia.
  reflexivity.
Qed.

(** X5: _make_layer with blocks <= 1 (0 and negative counts included) builds
    exactly one block, the one built by block(self.ni, nf, stride,
    downsample): range(1, blocks) is empty. *)
Theorem make_layer_single_block ni b nf blocks stride g :
  0 <= ni -> 0 <= nf -> blocks <= 1 ->
  exists b0 g',
    make_layer ni b nf blocks stride g = Ok (Sequential [b0], nf * expansion b) g' /\
    exists ds g1 g2, block_new b ni nf stride ds g1 = Ok b0 g2.
Proof.
  intros Hni Hnf Hb.
  destruct (make_layer_ok ni b nf blocks stride g Hni Hnf) as (layer & g' & E).
  pose proof (make_layer_struct _ _ _ _ _ _ _ _ _ E) as (_ & _ & _ & ds & g1 & rest & _ & -> & Hlen & _).
  destruct rest as [|x r]; [|simpl in Hlen; lia].
  exists (block_result b ni nf stride ds g1), g'. split; [exact E|].
  exists ds, g1, (block_draws b + g1)%nat. rewrite block_new_eq.
  replace ((ni <? 0) || (nf <? 0)) with false
    by (symmetry; apply orb_false_iff; split; apply Z.ltb_ge; lia).
  reflexivity.
Qed.

(** ** Block counts *)

Lemma count_blocks_skeleton : forall m, count_blocks (skeleton m) = count_blocks m.
Proof.
  induction m as [m IH] using Module_size_ind. unfold skeleton in *.
  destruct m; cbn [map_params count_blocks]; try reflexivity.
  - rewrite map_map. f_equal. apply map_ext_in. intros y Hy. apply IH. size_tac.
  - rewrite !IH by size_tac.
    destruct downsample; cbn [option_map]; rewrite ?IH by size_tac; reflexivity.
  - rewrite !IH by size_tac.
    destruct downsample; cbn [option_map]; rewrite ?IH by size_tac; reflexivity.
  - cbn [map]. rewrite !IH by size_tac. reflexivity.
Qed.

Lemma block_result_count b ni nf s ds g :
  ds = None \/ (exists h, ds = Some (ds_result ni b nf s h)) ->
  count_blocks (block_result b ni nf s ds g) = 1%nat.
Proof.
  intros [-> | [h ->]]; destruct b; cbn; try reflexivity;
    destruct (s =? 2); reflexivity.
Qed.

Lemma make_layer_count ni b nf blocks stride g layer ni' g' :
  make_layer ni b nf blocks stride g = Ok (layer, ni') g' ->
  count_blocks layer = Z.to_nat (Z.max 1 blocks).
Proof.
  intros H. apply make_layer_struct in H.
  destruct H as (_ & _ & _ & ds & g1 & rest & Hds & -> & Hlen & HR).
  assert (Hr : list_sum (map count_blocks rest) = length rest).
  { clear - HR. unfold list_sum. induction HR as [|x r (h & ->) _ IH]; [reflexivity|].
    cbn [map fold_right length]. rewrite block_result_count by (left; reflexivity). lia. }
  unfold list_sum in Hr. cbn [count_blocks map list_sum fold_right].
  rewrite block_result_count
    by (destruct Hds as [(_ & ->) | (_ & ->)]; [left | right; eexists]; reflexivity).
  rewrite Hr, Hlen. lia.
Qed.

(** X6: a model built by XResNet.__init__ holds exactly
    max(1, layers[0]) + ... + max(1, layers[3]) residual blocks. *)
Theorem XResNet_block_count block layers nc g m g' :
  XResNet_init block layers nc g = Ok m g' ->
  count_blocks m = list_sum (map (fun k => Z.to_nat (Z.max 1 k)) (firstn 4 layers)).
Proof.
  intros H. apply XResNet_skeleton in H.
  destruct H as (n0 & n1 & n2 & n3 & l1 & l2 & l3 & l4 & ni1 & ni2 & ni3 & ni4 &
                 h1 & h2 & h3 & h4 & lin & h5 & H0 & H1 & H2 & H3 & E1 & E2 & E3 & E4 & El & Hs).
  rewrite <- count_blocks_skeleton, Hs, count_blocks_skeleton.
  unfold nnLinear in El. destruct (_ || _); [discriminate|].
  cbv [bind draw ret] in El. injection El as <- _.
  destruct layers as [|k0 [|k1 [|k2 [|k3 r]]]]; try discriminate.
  cbn in H0, H1, H2, H3. injection H0 as ->. injection H1 as ->.
  injection H2 as ->. injection H3 as ->.
  cbn [count_blocks map list_sum firstn cbr_result].
  rewrite (make_layer_count _ _ _ _ _ _ _ _ _ E1), (make_layer_count _ _ _ _ _ _ _ _ _ E2),
    (make_layer_count _ _ _ _ _ _ _ _ _ E3), (make_layer_count _ _ _ _ _ _ _ _ _ E4).
  unfold list_sum. cbn [fold_right]. lia.
Qed.

(** ** conv and the model's input checks *)



Lemma out_dim_3_2 h : out_dim h 3 2 1 = if 1 <=? h then Some ((h - 1) / 2 + 1) else None.
Proof.
  destruct (Z.leb_spec 1 h); [apply out_dim_3; lia|].
  unfold out_dim. cbn [Z.leb Z.compare].
  destruct (Z.leb_spec ((h + 2 * 1 - 3) / 2 + 1) 0); [reflexivity|].
  exfalso. Z.div_mod_to_equations. lia.
Qed.

(** X11: in evaluation mode, a model built by XResNet.__init__ rejects
    every input that is not [n, 3, h, w]: an input of rank other than 3 or 4
    with a rank error; a 4-dimensional or unbatched 3-dimensional input
    whose channel count is not 3 with a channel error at the first
    convolution; and an unbatched [3, h, w] input, which that convolution
    accepts, with a rank error at the first BatchNorm2d when h, w >= 1 (an
    output-size error at the convolution otherwise). *)
Theorem XResNet_input_checks block layers nc g m g' :
  XResNet_init block layers nc g = Ok m g' ->
  (forall n c h w, c <> 3 -> forward_shape m [n; c; h; w] = SErr EChannels) /\
  (forall c h w, c <> 3 -> forward_shape m [c; h; w] = SErr EChannels) /\
  (forall h w, forward_shape m [3; h; w] =
                 SErr (if (1 <=? h) && (1 <=? w) then ERank else EOutSize)) /\
  (forall d, length d <> 3%nat -> length d <> 4%nat -> forward_shape m d = SErr ERank).
Proof.
  intros H. apply XResNet_skeleton in H.
  destruct H as (n0 & n1 & n2 & n3 & l1 & l2 & l3 & l4 & ni1 & ni2 & ni3 & ni4 &
                 h1 & h2 & h3 & h4 & lin & h5 & _ & _ & _ & _ & _ & _ & _ & _ & _ & Hs).
  assert (Herr : forall d e, forward (cbr_result 3 32 3 2 g) (SOk d) = SErr e ->
                             forward_shape m d = SErr e).
  { intros d e He. unfold forward_shape.
    rewrite <- forward_shape_skeleton, Hs, forward_shape_skeleton. cbn [forward].
    rewrite He. repeat ((rewrite forward_shape_err) || (progress cbn)).
    reflexivity. }
  split; [|split; [|split]].
  - intros n c h w Hc. apply Herr. unfold cbr_result. cbn. unfold check_channels.
    destruct (Z.eqb_spec c 3); [contradiction | reflexivity].
  - intros c h w Hc. apply Herr. unfold cbr_result. cbn. unfold check_channels.
    destruct (Z.eqb_spec c 3); [contradiction | reflexivity].
  - intros h w. apply Herr. unfold cbr_result. rewrite !forward_seq_cons.
    cbn -[out_dim]. rewrite !out_dim_3_2.
    destruct (1 <=? h), (1 <=? w); reflexivity.
  - intros d Hd3 Hd4. apply Herr.
    destruct d as [|x0 [|x1 [|x2 [|x3 [|x4 r]]]]]; cbn in Hd3, Hd4 |- *; (reflexivity || lia).
Qed.

(** ** init_cnn and the initialisation loop *)

Lemma flat_map_Forall2 (f : Module -> list Param) (R : Module -> Module -> Prop) l l' :
  (forall x y, In x l -> R x y -> f y = f x) -> Forall2 R l l' -> flat_map f l' = flat_map f l.
Proof.
  intros H HF. induction HF as [|x y l l' Hxy HF IH]; simpl; [reflexivity|].
  f_equal.
  - apply H; simpl; auto.
  - apply IH. intros; apply H; simpl; auto.
Qed.

Ltac init_IH IH :=
  repeat match goal with
  | H : init_cnn ?x ?g = Ok ?y ?g' |- context [lin_bn1d_params ?y] =>
      rewrite (IH x ltac:(size_tac) g y g' H); clear H
  end.

Lemma init_cnn_lin_bn1d :
  forall m g m' g', init_cnn m g = Ok m' g' -> lin_bn1d_params m' = lin_bn1d_params m.
Proof.
  induction m as [m IH] using Module_size_ind.
  intros g m' g' H.
  destruct m; cbn [init_cnn] in H; inv_bind; cbn [lin_bn1d_params]; try reflexivity.
  - apply mapM_inv in E. eapply flat_map_Forall2; [|exact E].
    intros x y Hx (h & h' & Exy). eapply IH; [size_tac | exact Exy].
  - apply optM_inv in E1. init_IH IH.
    destruct downsample, a1; try contradiction; [|reflexivity].
    destruct E1 as (h & h' & E1). init_IH IH. reflexivity.
  - apply optM_inv in E2. init_IH IH.
    destruct downsample, a2; try contradiction; [|reflexivity].
    destruct E2 as (h & h' & E2). init_IH IH. reflexivity.
  - cbn [flat_map]. init_IH IH. reflexivity.
Qed.

(** X12: init_cnn never fails and never changes the architecture; afterwards
    every Conv2d weight is Kaiming-normal with a zero or absent bias and every
    BatchNorm2d has weight 1 and bias 0, while the parameters of Linear and
    BatchNorm1d modules are left as they were. *)
Theorem init_cnn_effect m g :
  exists m' g', init_cnn m g = Ok m' g' /\
    skeleton m' = skeleton m /\ base_ok m' = true /\
    lin_bn1d_params m' = lin_bn1d_params m.
Proof.
  destruct (init_cnn_ok m g) as (m' & g' & E).
  exists m', g'. split; [exact E|].
  split; [exact (init_cnn_skeleton _ _ _ _ E)|].
  split; [exact (init_cnn_base _ _ _ _ E)|].
  exact (init_cnn_lin_bn1d _ _ _ _ E).
Qed.

(** X13: on any module tree whose blocks' final conv paths start with a
    BatchNorm2d, init_cnn followed by the loop of lines 91-94 succeeds, keeps
    the architecture and leaves the initialisation [init_spec] (Kaiming
    convolutions, BatchNorm2d at 1 and 0 except the zeroed one at the head of
    each final conv path, Linear weights from N(0, 0.01)). *)
Theorem init_then_post_init m g :
  wf m = true ->
  exists m1 h m2 g', init_cnn m g = Ok m1 h /\ post_init false m1 h = Ok m2 g' /\
    skeleton m2 = skeleton m /\ init_spec m2 = true.
Proof.
  intros Hw.
  destruct (init_cnn_ok m g) as (m1 & h & E1).
  assert (Hw1 : wf m1 = true)
    by (rewrite <- wf_skeleton, (init_cnn_skeleton _ _ _ _ E1), wf_skeleton; exact Hw).
  destruct (post_init_ok m1 Hw1 false h) as (m2 & g' & E2).
  exists m1, h, m2, g'. split; [exact E1|]. split; [exact E2|]. split.
  - rewrite (post_init_skeleton _ _ _ _ _ E2). exact (init_cnn_skeleton _ _ _ _ E1).
  - exact (post_init_spec _ _ _ _ Hw1 (init_cnn_base _ _ _ _ E1) E2).
Qed.

(** ** Layers at stride 1 and 2 *)



(** ** Witnesses of the further properties *)

(** Witness of XResNet_init_IndexError. *)
Lemma XResNet_init_IndexError_witness :
  (length [2; 2; 2] < 4)%nat /\ XResNet_init BasicBlock [2; 2; 2] 1000 0%nat = Raise IndexError.
Proof. split; [simpl; lia | apply XResNet_init_IndexError; simpl; lia]. Defined.

(** Witness of XResNet_init_RuntimeError. *)
Lemma XResNet_init_RuntimeError_witness :
  ((4 <= length [2; 2; 2; 2])%nat /\ -1 < 0) /\
  XResNet_init BasicBlock [2; 2; 2; 2] (-1) 0%nat = Raise RuntimeError.
Proof. split; [simpl; lia | apply XResNet_init_RuntimeError; simpl; lia]. Defined.

(** Witness of XResNet_init_first_four. *)
Lemma XResNet_init_first_four_witness :
  firstn 4 [2; 2; 2; 2; 7] = firstn 4 [2; 2; 2; 2] /\
  XResNet_init BasicBlock [2; 2; 2; 2; 7] 1000 0%nat = XResNet_init BasicBlock [2; 2; 2; 2] 1000 0%nat.
Proof. split; [reflexivity | apply XResNet_init_first_four; reflexivity]. Defined.

(** Witness of make_layer_single_block. *)
Lemma make_layer_single_block_witness :
  (0 <= 64 /\ 0 <= 64 /\ 0 <= 1) /\
  exists b0 g',
    make_layer 64 BasicBlock 64 0 1 0%nat = Ok (Sequential [b0], 64 * expansion BasicBlock) g' /\
    exists ds g1 g2, block_new BasicBlock 64 64 1 ds g1 = Ok b0 g2.
Proof. split; [lia | apply (make_layer_single_block 64 BasicBlock 64 0 1 0%nat); lia]. Defined.

(** Witness of XResNet_block_count. *)
Lemma XResNet_block_count_witness :
  exists m g', XResNet_init Bottleneck [3; 4; 6; 3] 10 0%nat = Ok m g' /\
    count_blocks m = list_sum (map (fun k => Z.to_nat (Z.max 1 k)) (firstn 4 [3; 4; 6; 3])).
Proof.
  do 2 eexists. split; [run_concrete; reflexivity|].
  eapply (XResNet_block_count Bottleneck [3; 4; 6; 3] 10 0%nat). run_concrete. reflexivity.
Defined.


(** Witness of XResNet_forward_shape. *)
Lemma XResNet_forward_shape_witness :
  exists m g', XResNet_init BasicBlock [2; 2; 2; 2] 1000 0%nat = Ok m g' /\ (1 <= 2 /\ 1 <= 7 /\ 1 <= 7) /\
    forward_shape m [2; 3; 32 * 7; 32 * 7] = SOk [2; 1000].
Proof.
  do 2 eexists. split; [run_concrete; reflexivity|]. split; [lia|].
  eapply (XResNet_forward_shape BasicBlock [2; 2; 2; 2] 1000 0%nat); [run_concrete; reflexivity | lia ..].
Defined.



(** Witness of XResNet_input_checks. *)
Lemma XResNet_input_checks_witness :
  exists m g', XResNet_init BasicBlock [2; 2; 2; 2] 1000 0%nat = Ok m g' /\
    (forall n c h w, c <> 3 -> forward_shape m [n; c; h; w] = SErr EChannels) /\
    (forall c h w, c <> 3 -> forward_shape m [c; h; w] = SErr EChannels) /\
    (forall h w, forward_shape m [3; h; w] =
                   SErr (if (1 <=? h) && (1 <=? w) then ERank else EOutSize)) /\
    (forall d, length d <> 3%nat -> length d <> 4%nat -> forward_shape m d = SErr ERank).
Proof.
  do 2 eexists. split; [run_concrete; reflexivity|].
  eapply (XResNet_input_checks BasicBlock [2; 2; 2; 2] 1000 0%nat). run_concrete. reflexivity.
Defined.

(** Witness of init_then_post_init. *)
Lemma init_then_post_init_witness :
  wf (Sequential [BasicBlockM (brc_result 64 64 3 1 0%nat) (brc_result 64 64 3 1 1%nat) None 1;
                  Linear 64 10 (Drawn DefaultUniform 2%nat) (Drawn DefaultUniform 3%nat)]) = true /\
  exists m1 h m2 g',
    init_cnn (Sequential [BasicBlockM (brc_result 64 64 3 1 0%nat) (brc_result 64 64 3 1 1%nat) None 1;
                          Linear 64 10 (Drawn DefaultUniform 2%nat) (Drawn DefaultUniform 3%nat)]) 0%nat
      = Ok m1 h /\ post_init false m1 h = Ok m2 g' /\
    skeleton m2 = skeleton (Sequential [BasicBlockM (brc_result 64 64 3 1 0%nat) (brc_result 64 64 3 1 1%nat) None 1;
                                        Linear 64 10 (Drawn DefaultUniform 2%nat) (Drawn DefaultUniform 3%nat)]) /\
    init_spec m2 = true.
Proof. split; [reflexivity | apply init_then_post_init; reflexivity]. Defined.
